(** * Submission governance check ([scripts/validate.py])

    A shallow embedding of the validator: the path filter
    ([should_exclude]), the change-set resolver ([get_files_to_check]) and
    the rule engine and reporter of [main], over an explicit model of the
    file system and of the [git diff] subprocess. *)

From stdpp Require Import base decidable option list gmap strings pretty.
From Stdlib Require Import Ascii.
From Stdlib Require Import ZArith Lia Permutation.

Local Open Scope Z_scope.
Local Open Scope list_scope.

(** ** Text

    A [string] is a sequence of code points below 256 (a message literal
    holds its UTF-8 bytes).  The functions of this section are the [str]
    methods the validator calls, restricted to that range. *)

Module Text.

Definition code (c : ascii) : N := Ascii.N_of_ascii c.

(** [str.startswith] *)
Definition startswith (s pre : string) : bool := String.prefix pre s.

(** [str.endswith] *)
Definition endswith (s suf : string) : bool :=
  String.prefix (String.rev suf) (String.rev s).

(** [str.lower] on one code point: A-Z, and the Latin-1 capitals
    U+00C0..U+00DE without the multiplication sign U+00D7. *)
Definition lower_char (c : ascii) : ascii :=
  let n := code c in
  if ((65 <=? n) && (n <=? 90))%N then Ascii.ascii_of_N (n + 32)
  else if ((192 <=? n) && (n <=? 222) && negb (n =? 215))%N
       then Ascii.ascii_of_N (n + 32)
  else c.

Fixpoint lower (s : string) : string :=
  match s with
  | EmptyString => EmptyString
  | String c s' => String (lower_char c) (lower s')
  end.

(** [str.isspace] on one code point. *)
Definition isspace (c : ascii) : bool :=
  let n := code c in
  (((9 <=? n) && (n <=? 13)) || ((28 <=? n) && (n <=? 32))
   || (n =? 133) || (n =? 160))%N.

Fixpoint lstrip (s : string) : string :=
  match s with
  | EmptyString => EmptyString
  | String c s' => if isspace c then lstrip s' else s
  end.

Fixpoint rstrip (s : string) : string :=
  match s with
  | EmptyString => EmptyString
  | String c s' =>
      match rstrip s' with
      | EmptyString => if isspace c then EmptyString else String c EmptyString
      | r => String c r
      end
  end.

(** [str.strip()] *)
Definition strip (s : string) : string := rstrip (lstrip s).

(** Line boundaries of [str.splitlines]: LF, VT, FF, CR, FS, GS, RS and
    NEL; CR LF counts as one boundary. *)
Definition is_linebreak (c : ascii) : bool :=
  let n := code c in
  (((10 <=? n) && (n <=? 13)) || ((28 <=? n) && (n <=? 30)) || (n =? 133))%N.

(** [splitlines_aux cur s]: [cur] is the line read so far. *)
Fixpoint splitlines_aux (cur : string) (s : string) : list string :=
  match s with
  | EmptyString =>
      match cur with EmptyString => [] | _ => [cur] end
  | String c s' =>
      if is_linebreak c then
        match code c, s' with
        | 13%N, String c' s'' =>
            if (code c' =? 10)%N
            then cur :: splitlines_aux EmptyString s''
            else cur :: splitlines_aux EmptyString s'
        | _, _ => cur :: splitlines_aux EmptyString s'
        end
      else splitlines_aux (cur +:+ String c EmptyString) s'
  end.

(** [str.splitlines()] *)
Definition splitlines (s : string) : list string :=
  splitlines_aux EmptyString s.

(** [str.split(sep)] for a one-character separator. *)
Fixpoint split_aux (sep : ascii) (cur : string) (s : string) : list string :=
  match s with
  | EmptyString => [cur]
  | String c s' =>
      if Ascii.eqb c sep then cur :: split_aux sep EmptyString s'
      else split_aux sep (cur +:+ String c EmptyString) s'
  end.

Definition split (sep : ascii) (s : string) : list string :=
  split_aux sep EmptyString s.

(** [str.rfind(c)], [None] for -1. *)
Fixpoint rfind (c : ascii) (s : string) : option nat :=
  match s with
  | EmptyString => None
  | String d s' =>
      match rfind c s' with
      | Some i => Some (S i)
      | None => if Ascii.eqb c d then Some 0%nat else None
      end
  end.

(** [s[i:]] *)
Fixpoint drop (i : nat) (s : string) : string :=
  match i, s with
  | O, _ => s
  | S i', String _ s' => drop i' s'
  | S _, EmptyString => EmptyString
  end.

End Text.

(** ** Console markup

    The tags of a console text, as [rich.markup] reads them: a tag is
    ["["], a character among [a-z # / @], then text without ["["] up to the
    first ["]"]; an odd number of backslashes before it makes it literal.
    An opening tag is pushed on a stack; [[/name]] pops the innermost open
    tag of that name and [[/]] the innermost open tag, and either is an
    error when there is none.  Tags left open are closed at the end of the
    text.  This console compares names without surrounding white space and
    without case; Rich further identifies the spellings of one style, as
    [b] and [bold], and evaluates the parameters of a handler tag. *)

Module Markup.

Definition tag_start (c : ascii) : bool :=
  let n := Text.code c in
  (((97 <=? n) && (n <=? 122)) || (n =? 35) || (n =? 47) || (n =? 64))%N.

Definition normalize (s : string) : string := Text.lower (Text.strip s).

(** [text.partition("=")[0]] *)
Fixpoint before_equals (s : string) : string :=
  match s with
  | EmptyString => EmptyString
  | String c s' =>
      if Ascii.eqb c "=" then EmptyString else String c (before_equals s')
  end.

(** The stack, innermost tag first, without the innermost tag [name]. *)
Fixpoint pop_style (name : string) (stack : list string)
  : option (list string) :=
  match stack with
  | [] => None
  | t :: rest =>
      if String.eqb t name then Some rest
      else cons t <$> pop_style name rest
  end.

(** The stack after one tag, [None] when the tag closes nothing. *)
Definition apply_tag (text : string) (stack : list string)
  : option (list string) :=
  match before_equals text with
  | String "/" rest =>
      let style_name := Text.strip rest in
      if String.eqb style_name EmptyString then
        match stack with
        | [] => None
        | _ :: stack' => Some stack'
        end
      else pop_style (normalize style_name) stack
  | name => Some (normalize name :: stack)
  end.

(** Where the reader is: in plain text, after an odd or even run of
    backslashes; just after ["["]; or inside a tag. *)
Inductive position : Type :=
| Plain (odd : bool)
| Opened (escaped : bool)
| Inside (escaped : bool) (text : string) (odd : bool).

Fixpoint scan (pos : position) (stack : list string) (s : string) : bool :=
  match s with
  | EmptyString => true
  | String c s' =>
      match pos with
      | Plain odd =>
          if Ascii.eqb c "\" then scan (Plain (negb odd)) stack s'
          else if Ascii.eqb c "[" then scan (Opened odd) stack s'
          else scan (Plain false) stack s'
      | Opened escaped =>
          if tag_start c
          then scan (Inside escaped (String c EmptyString) false) stack s'
          else if Ascii.eqb c "[" then scan (Opened false) stack s'
          else scan (Plain (Ascii.eqb c "\")) stack s'
      | Inside escaped text odd =>
          if Ascii.eqb c "]" then
            if escaped then scan (Plain false) stack s'
            else match apply_tag text stack with
                 | Some stack' => scan (Plain false) stack' s'
                 | None => false
                 end
          else if Ascii.eqb c "[" then scan (Opened odd) stack s'
          else scan (Inside escaped (text +:+ String c EmptyString)
                            (Ascii.eqb c "\" && negb odd))
                    stack s'
      end
  end.

(** Whether [rich.markup.render] returns on [text]. *)
Definition renders (text : string) : bool := scan (Plain false) [] text.

End Markup.

(** ** Exceptions and fallible computations *)

Inductive exn : Type :=
| ValueError
| FileNotFoundError
| NotADirectoryError
| IsADirectoryError
| PermissionError
| UnicodeDecodeError
| MarkupError
| CalledProcessError (returncode : Z).

Inductive result (A : Type) : Type :=
| Ok (a : A)
| Raise (e : exn).
Arguments Ok {A} a.
Arguments Raise {A} e.

Definition bind {A B} (m : result A) (k : A -> result B) : result B :=
  match m with
  | Ok a => k a
  | Raise e => Raise e
  end.

Notation "'do' x <- m ; k" := (bind m (fun x => k))
  (at level 10, x name, m at level 100, k at level 200).

(** A [for] loop whose body may raise: the first exception ends the loop. *)
Fixpoint for_each {A S} (body : A -> S -> result S) (l : list A) (s : S)
  : result S :=
  match l with
  | [] => Ok s
  | x :: l' => do s' <- body x s; for_each body l' s'
  end.

(** ** Paths ([pathlib.PurePosixPath])

    A path is its [parts]: for an absolute path the first part is the
    anchor, ["/"] (or ["//"]). *)

Definition Path : Type := list string.

Module Pth.

Definition is_anchor (s : string) : bool :=
  String.eqb s "/" || String.eqb s "//".

Definition has_anchor (p : Path) : bool :=
  match p with
  | a :: _ => is_anchor a
  | [] => false
  end.

(** The parts after the anchor. *)
Definition tail_parts (p : Path) : list string :=
  if has_anchor p then tail p else p.

(** [PurePath.name]: the last part, the empty string for a bare anchor or the empty
    path. *)
Definition name (p : Path) : string :=
  default EmptyString (last (tail_parts p)).

(** [PurePath.suffix] *)
Definition suffix (p : Path) : string :=
  let n := name p in
  match Text.rfind "." n with
  | Some i =>
      if ((0 <? i) && (i <? String.length n - 1))%nat then Text.drop i n
      else EmptyString
  | None => EmptyString
  end.

(** The segments of a path string: split on ["/"], empty and ["."]
    components dropped. *)
Definition segments (s : string) : list string :=
  List.filter (fun x => negb (String.eqb x EmptyString) && negb (String.eqb x "."))
              (Text.split "/" s).

(** The anchor of a path string: exactly two leading slashes are kept,
    any other number of them is one. *)
Definition anchor_of (s : string) : list string :=
  if Text.startswith s "///" then ["/"]
  else if Text.startswith s "//" then ["//"]
  else if Text.startswith s "/" then ["/"]
  else [].

Definition parse (s : string) : Path := anchor_of s ++ segments s.

(** [p / s]: an absolute [s] replaces [p]. *)
Definition joinpath (p : Path) (s : string) : Path :=
  if Text.startswith s "/" then parse s else p ++ segments s.

Fixpoint strip_prefix (pre p : list string) : option (list string) :=
  match pre, p with
  | [], _ => Some p
  | a :: pre', b :: p' => if String.eqb a b then strip_prefix pre' p' else None
  | _ :: _, [] => None
  end.

(** [p.relative_to(other)]: [None] stands for [ValueError]. *)
Definition relative_to (p other : Path) : option Path :=
  match strip_prefix other p with
  | Some rel => if has_anchor rel then None else Some rel
  | None => None
  end.

(** [str(p)] *)
Definition to_str (p : Path) : string :=
  match p with
  | [] => "."
  | a :: rest =>
      if is_anchor a then a +:+ String.concat "/" rest
      else String.concat "/" p
  end.

(** The order of [PurePath.__lt__]: the parts, compared as lists of
    strings by code point. *)
Fixpoint compare (p q : Path) : comparison :=
  match p, q with
  | [], [] => Eq
  | [], _ :: _ => Lt
  | _ :: _, [] => Gt
  | a :: p', b :: q' =>
      match String.compare a b with
      | Eq => compare p' q'
      | c => c
      end
  end.

Definition ltb (p q : Path) : bool :=
  match compare p q with Lt => true | _ => false end.

End Pth.

(** [sorted]: a stable sort by [<]. *)
Fixpoint insert_sorted (x : Path) (l : list Path) : list Path :=
  match l with
  | [] => [x]
  | y :: l' => if Pth.ltb y x then y :: insert_sorted x l' else x :: l
  end.

Fixpoint sorted (l : list Path) : list Path :=
  match l with
  | [] => []
  | x :: l' => insert_sorted x (sorted l')
  end.

(** ** The file system

    A tree of regular files and directories.  A directory holds its
    entries in the order the operating system lists them
    ([os.scandir]), which is not sorted.  A file carries its size in bytes
    and the lines that iterating over it in text mode yields; with
    [errors="ignore"] undecodable bytes are dropped and decoding does not
    fail, so every file has such a sequence of lines. *)

#[warnings="-register-all"]
Inductive node : Type :=
| File (st_size : Z) (lines : list string)
| Dir (st_size : Z) (entries : list (string * node)).

Definition node_size (n : node) : Z :=
  match n with
  | File sz _ => sz
  | Dir sz _ => sz
  end.

Fixpoint lookup_entry (s : string) (es : list (string * node)) : option node :=
  match es with
  | [] => None
  | (n, child) :: es' => if String.eqb s n then Some child else lookup_entry s es'
  end.

(** Path resolution from the node [cur], whose ancestors are [anc]
    (nearest first). *)
Fixpoint walk (anc : list node) (cur : node) (parts : list string)
  : option node :=
  match parts with
  | [] => Some cur
  | s :: rest =>
      match cur with
      | File _ _ => None
      | Dir _ es =>
          if String.eqb s ".." then
            match anc with
            | [] => walk [] cur rest
            | up :: anc' => walk anc' up rest
            end
          else if String.eqb s "." then walk anc cur rest
          else
            match lookup_entry s es with
            | Some child => walk (cur :: anc) child rest
            | None => None
            end
      end
  end.

(** The node a path names; the working directory is the root of the
    tree. *)
Definition resolve (fs : node) (p : Path) : option node :=
  walk [] fs (Pth.tail_parts p).

(** [Path.exists], [Path.is_file], [Path.is_dir], where the lookup of a
    path fails only because a name on it is missing or is no directory. *)
Definition exists_ (fs : node) (p : Path) : bool :=
  match resolve fs p with Some _ => true | None => false end.

Definition is_file (fs : node) (p : Path) : bool :=
  match resolve fs p with Some (File _ _) => true | _ => false end.

Definition is_dir (fs : node) (p : Path) : bool :=
  match resolve fs p with Some (Dir _ _) => true | _ => false end.

(** [Path.stat().st_size] *)
Definition stat_size (fs : node) (p : Path) : result Z :=
  match resolve fs p with
  | Some n => Ok (node_size n)
  | None => Raise FileNotFoundError
  end.

(** [Path.iterdir] *)
Definition iterdir (fs : node) (p : Path) : result (list Path) :=
  match resolve fs p with
  | Some (Dir _ es) => Ok (map (fun e => p ++ [e.1]) es)
  | Some (File _ _) => Raise NotADirectoryError
  | None => Raise FileNotFoundError
  end.

(** [Path.glob("*" + ext)] for a literal [ext]: the entries of the
    directory whose name ends in [ext]; nothing when [p] is not a
    directory. *)
Definition glob_ext (fs : node) (p : Path) (ext : string) : list Path :=
  match resolve fs p with
  | Some (Dir _ es) =>
      map (fun e => p ++ [e.1])
          (List.filter (fun e => Text.endswith e.1 ext) es)
  | _ => []
  end.

(** [Path.rglob("*")]: the entries of the directory, then those of each
    subdirectory in turn. *)
Fixpoint rglob_node (base : Path) (n : node) : list Path :=
  match n with
  | File _ _ => []
  | Dir _ es =>
      map (fun e => base ++ [e.1]) es ++
      flat_map (fun e => match e with
                         | (name, child) => rglob_node (base ++ [name]) child
                         end) es
  end.

Definition rglob (fs : node) (p : Path) : list Path :=
  match resolve fs p with
  | Some n => rglob_node p n
  | None => []
  end.

(** [open(p, "r", encoding="utf-8", errors="ignore")], iterated. *)
Definition open_lines (fs : node) (p : Path) : result (list string) :=
  match resolve fs p with
  | Some (File _ ls) => Ok ls
  | Some (Dir _ _) => Raise IsADirectoryError
  | None => Raise FileNotFoundError
  end.

(** ** Configuration *)

Record Constraints : Type := {
  max_src_files : Z;
  max_line_count : Z;
  max_asset_size_bytes : Z;
  question_prefix : string;
  target_ext : string;
  ignored_parts : gset string;
  asset_exts : gset string;
  whitelisted_files : gset string
}.

(** [Constraints()]: every field at its default. *)
Definition default_constraints : Constraints := {|
  max_src_files := 5;
  max_line_count := 500;
  max_asset_size_bytes := 5 * 1024 * 1024;
  question_prefix := "q";
  target_ext := ".py";
  ignored_parts :=
    {[ ".venv"; "venv"; ".git"; "__pycache__"; ".pytest_cache";
       ".devcontainer"; "infra" ]};
  asset_exts := {[ ".jpg"; ".jpeg"; ".png"; ".mp4"; ".mov"; ".avi" ]};
  whitelisted_files :=
    {[ ".gitignore"; "README.md"; "pyproject.toml"; "uv.lock"; "Makefile";
       "config.yaml" ]}
|}.

(** [x in s] for a set of strings. *)
Definition mem (x : string) (s : gset string) : bool := bool_decide (x ∈ s).

(** ** PathFilter *)

Definition should_exclude (path : Path) (ignored : gset string) : bool :=
  existsb (fun part => mem part ignored || Text.startswith part ".") path.

(** ** The environment of a run: the file system, the answer of a
    subprocess to a command line, the [IS_INSTRUCTOR] variable, and the
    console: [console_renders text] tells whether the console renders
    [text] as markup, or raises [MarkupError] on it. *)

Record completed : Type := {
  returncode : Z;
  output : string
}.

Record World : Type := {
  disk : node;
  run_process : list string -> result completed;
  environ_IS_INSTRUCTOR : option string;
  console_renders : string -> bool
}.

(** [subprocess.check_output(cmd, text=True, stderr=subprocess.STDOUT)]:
    the merged output when the process exits with status zero. *)
Definition check_output (w : World) (cmd : list string) : result string :=
  do c <- run_process w cmd;
  if returncode c =? 0 then Ok (output c)
  else Raise (CalledProcessError (returncode c)).

(** ** ChangeSetResolver *)

Definition all_files (w : World) (root : Path) (ignored : gset string)
  : list Path :=
  List.filter (fun p => is_file (disk w) p && negb (should_exclude p ignored))
              (rglob (disk w) root).

Definition diff_cmd (root : Path) : list string :=
  ["git"; "-C"; Pth.to_str root; "diff"; "--name-only"; "origin/main...HEAD"].

Definition get_files_to_check (w : World) (root : Path) (is_local : bool)
    (ignored : gset string) : list Path :=
  if is_local then all_files w root ignored
  else
    match check_output w (diff_cmd root) with
    | Ok out =>
        let result := Text.strip out in
        if negb (String.eqb result EmptyString) then
          let all_changed :=
            map (fun line => Pth.joinpath root (Text.strip line))
                (List.filter (fun line => negb (String.eqb (Text.strip line) EmptyString))
                             (Text.splitlines result)) in
          List.filter (fun p => negb (should_exclude p ignored)) all_changed
        else all_files w root ignored
    | Raise _ => all_files w root ignored
    end.

(** ** Violations

    The validator collects message strings; a [violation] is the rule that
    fired with the values its message is formatted from, and [render] is
    the message. *)

Inductive violation : Type :=
| AssetTooBig (rel : Path)
| ForbiddenModification (rel : Path)
| TooManyScripts (q_name : string)
| TooManyLines (rel : Path) (limit : Z).

Definition render (v : violation) : string :=
  match v with
  | AssetTooBig rel =>
      "Asset [bold]" +:+ Pth.to_str rel +:+ "[/bold] exceeds 5MB."
  | ForbiddenModification rel =>
      "Forbidden modification: [bold]" +:+ Pth.to_str rel +:+ "[/bold]."
  | TooManyScripts q_name => q_name +:+ "/src has too many scripts."
  | TooManyLines rel limit =>
      "File [bold]" +:+ Pth.to_str rel +:+ "[/bold] > " +:+ pretty limit
      +:+ " lines."
  end.

(** ** ConstraintEngine: the two loops of [main] *)

Record State : Type := {
  violations : list violation;
  total_py_files : Z;
  total_lines : Z
}.

Definition initial_state : State :=
  {| violations := []; total_py_files := 0; total_lines := 0 |}.

(** [violations.append(v)] *)
Definition append_violation (v : violation) (st : State) : State :=
  {| violations := violations st ++ [v];
     total_py_files := total_py_files st;
     total_lines := total_lines st |}.

Definition add_py_files (n : Z) (st : State) : State :=
  {| violations := violations st;
     total_py_files := total_py_files st + n;
     total_lines := total_lines st |}.

Definition add_lines (n : Z) (st : State) : State :=
  {| violations := violations st;
     total_py_files := total_py_files st;
     total_lines := total_lines st + n |}.

(** [x in parts] *)
Definition elem (x : string) (parts : list string) : bool :=
  existsb (String.eqb x) parts.

(** [p.relative_to(root)] where a [ValueError] propagates. *)
Definition relative_to_or_raise (p root : Path) : result Path :=
  match Pth.relative_to p root with
  | Some rel => Ok rel
  | None => Raise ValueError
  end.

(** The asset size rule on one existing candidate. *)
Definition asset_rule (c : Constraints) (w : World) (root path_obj : Path)
    (st : State) : result State :=
  if mem (Text.lower (Pth.suffix path_obj)) (asset_exts c) then
    do size <- stat_size (disk w) path_obj;
    if size >? max_asset_size_bytes c then
      do rel <- relative_to_or_raise path_obj root;
      Ok (append_violation (AssetTooBig rel) st)
    else Ok st
  else Ok st.

(** The modification-scope rule on one existing candidate; the
    [ValueError] of [relative_to] is caught and the candidate skipped. *)
Definition scope_rule (c : Constraints) (root path_obj : Path)
    (local is_instructor : bool) (st : State) : State :=
  if negb local && negb is_instructor then
    match Pth.relative_to path_obj root with
    | Some rel =>
        let is_in_src := elem "src" rel in
        let is_in_assets := elem "assets" rel in
        let is_whitelisted := mem (Pth.name rel) (whitelisted_files c) in
        if negb (is_in_src || is_in_assets || is_whitelisted)
        then append_violation (ForbiddenModification rel) st
        else st
    | None => st
    end
  else st.

(** The body of [for path_obj in files]. *)
Definition check_candidate (c : Constraints) (w : World) (root : Path)
    (local is_instructor : bool) (path_obj : Path) (st : State)
  : result State :=
  if negb (exists_ (disk w) path_obj) then Ok st
  else
    do st1 <- asset_rule c w root path_obj st;
    Ok (scope_rule c root path_obj local is_instructor st1).

(** The body of [for f in py_files]. *)
Definition check_source_file (c : Constraints) (w : World) (root f : Path)
    (st : State) : result State :=
  do ls <- open_lines (disk w) f;
  let count := Z.of_nat (length ls) in
  let st1 := add_lines count st in
  if count >? max_line_count c then
    do rel <- relative_to_or_raise f root;
    Ok (append_violation (TooManyLines rel (max_line_count c)) st1)
  else Ok st1.

(** The body of [for q_dir in q_dirs]. *)
Definition check_question_dir (c : Constraints) (w : World) (root q_dir : Path)
    (st : State) : result State :=
  let src_path := Pth.joinpath q_dir "src" in
  if exists_ (disk w) src_path then
    let py_files := glob_ext (disk w) src_path (target_ext c) in
    let n := Z.of_nat (length py_files) in
    let st1 := add_py_files n st in
    let st2 :=
      if n >? max_src_files c
      then append_violation (TooManyScripts (Pth.name q_dir)) st1
      else st1 in
    for_each (check_source_file c w root) py_files st2
  else Ok st.

(** [sorted([d for d in root.iterdir() if d.is_dir() and
    d.name.startswith(question_prefix)])] *)
Definition question_dirs (c : Constraints) (w : World) (root : Path)
  : result (list Path) :=
  do ds <- iterdir (disk w) root;
  Ok (sorted (List.filter
                (fun d => is_dir (disk w) d
                          && Text.startswith (Pth.name d) (question_prefix c))
                ds)).

(** Lines 105-155 of [main]: both loops over a candidate list [files],
    from the empty violation list. *)
Definition run_rules (c : Constraints) (w : World) (root : Path)
    (local is_instructor : bool) (files : list Path) : result State :=
  do st <- for_each (check_candidate c w root local is_instructor) files
                    initial_state;
  do q_dirs <- question_dirs c w root;
  for_each (check_question_dir c w root) q_dirs st.

(** Lines 104-155 of [main]. *)
Definition evaluate (c : Constraints) (w : World) (root : Path)
    (local is_instructor : bool) : result State :=
  let files := get_files_to_check w root local (ignored_parts c) in
  run_rules c w root local is_instructor files.

(** ** Reporter and [main] *)

Inductive printed : Type :=
| Panel (text : string)
| Table (title : string) (rows : list (string * string))
| Line (text : string).

Definition LF : string := String "010" EmptyString.

(** Lines 157-168: what is printed, and the exit status, when the console
    renders the table. *)
Definition report (vs : list violation) : list printed * Z :=
  match vs with
  | [] => ([Line (LF +:+ "[bold green]âœ“[/bold green] All checks passed successfully!")], 0)
  | _ :: _ =>
      ([Table "Violations Found"
              (map (fun v => ("Constraint Error", render v)) vs)], 1)
  end.

(** [os.getenv("IS_INSTRUCTOR", "false").lower() == "true"] *)
Definition is_instructor_of (w : World) : bool :=
  String.eqb (Text.lower (default "false" (environ_IS_INSTRUCTOR w))) "true".

Definition mode_label (local is_instructor : bool) : string :=
  if is_instructor then "Instructor Bypass"
  else if local then "Local" else "Student (CI/CD)".

(** [Path(path).resolve()] with the root of the tree as working directory
    and no symbolic links: [".."] is removed with the segment before
    it. *)
Fixpoint normalise (rev_acc : list string) (segs : list string)
  : list string :=
  match segs with
  | [] => rev rev_acc
  | s :: segs' =>
      if String.eqb s ".." then normalise (tail rev_acc) segs'
      else normalise (s :: rev_acc) segs'
  end.

Definition resolve_path (path : string) : Path :=
  "/" :: normalise [] (Pth.segments path).

(** One run: what is printed, and the exit status or the exception that
    ends the run.  The table is printed by one [console.print(table)],
    which renders every message as markup before it writes anything, and
    raises [MarkupError] when one of them does not render. *)
Definition main (w : World) (local : bool) (path : string)
  : list printed * result Z :=
  let constraints := default_constraints in
  let root := resolve_path path in
  let is_instructor := is_instructor_of w in
  let panel :=
    Panel ("[bold blue]Assignment Governance Check[/bold blue]" +:+ LF
           +:+ "Mode: " +:+ mode_label local is_instructor) in
  match evaluate constraints w root local is_instructor with
  | Ok st =>
      let (out, status) := report (violations st) in
      if forallb (console_renders w) (map render (violations st))
      then (panel :: out, Ok status)
      else ([panel], Raise MarkupError)
  | Raise e => ([panel], Raise e)
  end.

(** ** Counting violations *)

#[global] Instance exn_eq_dec : EqDecision exn.
Proof. solve_decision. Defined.

#[global] Instance violation_eq_dec : EqDecision violation.
Proof. solve_decision. Defined.

(** The file a violation names by its path relative to root, if any. *)
Definition named_file (v : violation) : option Path :=
  match v with
  | AssetTooBig rel => Some rel
  | ForbiddenModification rel => Some rel
  | TooManyScripts _ => None
  | TooManyLines rel _ => Some rel
  end.

(** [occurrences v vs]: how many times [v] is in the list [vs]. *)
Definition occurrences (v : violation) (vs : list violation) : nat :=
  count_occ violation_eq_dec vs v.

(** ** What one iteration of each loop collects

    The violations an iteration appends when it returns, as functions of
    the element alone. *)

Definition asset_emitted (c : Constraints) (w : World) (root p : Path)
  : list violation :=
  if mem (Text.lower (Pth.suffix p)) (asset_exts c) then
    match stat_size (disk w) p, Pth.relative_to p root with
    | Ok size, Some rel =>
        if size >? max_asset_size_bytes c then [AssetTooBig rel] else []
    | _, _ => []
    end
  else [].

Definition scope_emitted (c : Constraints) (root p : Path)
    (local is_instructor : bool) : list violation :=
  if negb local && negb is_instructor then
    match Pth.relative_to p root with
    | Some rel =>
        if negb (elem "src" rel || elem "assets" rel
                 || mem (Pth.name rel) (whitelisted_files c))
        then [ForbiddenModification rel] else []
    | None => []
    end
  else [].

Definition candidate_emitted (c : Constraints) (w : World) (root : Path)
    (local is_instructor : bool) (p : Path) : list violation :=
  if exists_ (disk w) p
  then asset_emitted c w root p ++ scope_emitted c root p local is_instructor
  else [].

Definition source_file_emitted (c : Constraints) (w : World) (root f : Path)
  : list violation :=
  match open_lines (disk w) f, Pth.relative_to f root with
  | Ok ls, Some rel =>
      if Z.of_nat (length ls) >? max_line_count c
      then [TooManyLines rel (max_line_count c)] else []
  | _, _ => []
  end.

Definition question_dir_emitted (c : Constraints) (w : World) (root d : Path)
  : list violation :=
  let src_path := Pth.joinpath d "src" in
  if exists_ (disk w) src_path then
    let py_files := glob_ext (disk w) src_path (target_ext c) in
    (if Z.of_nat (length py_files) >? max_src_files c
     then [TooManyScripts (Pth.name d)] else [])
    ++ concat (map (source_file_emitted c w root) py_files)
  else [].

(** ** Well-formed trees

    What every directory of a real file system satisfies: entry names are
    not empty, not ["."] or [".."], hold no ["/"], and are pairwise
    distinct. *)

Fixpoint contains (ch : ascii) (s : string) : bool :=
  match s with
  | EmptyString => false
  | String d s' => Ascii.eqb ch d || contains ch s'
  end.

Definition wf_name (s : string) : bool :=
  negb (String.eqb s EmptyString) && negb (String.eqb s ".")
  && negb (String.eqb s "..") && negb (contains "/" s).

Fixpoint wf_node (n : node) : bool :=
  match n with
  | File _ _ => true
  | Dir _ es =>
      bool_decide (NoDup (map fst es))
      && forallb (fun e => match e with
                           | (name, child) => wf_name name && wf_node child
                           end) es
  end.

(** A path whose parts are all free of the [".."] and ["."] entries. *)
Definition plain (parts : list string) : Prop :=
  Forall (fun s => Text.startswith s "." = false) parts.

(** Descent by names alone. *)
Fixpoint descend (cur : node) (parts : list string) : option node :=
  match parts with
  | [] => Some cur
  | s :: rest =>
      match cur with
      | File _ _ => None
      | Dir _ es =>
          match lookup_entry s es with
          | Some child => descend child rest
          | None => None
          end
      end
  end.

(** ** A sample submission

    [/repo] holds two question directories, a whitelisted file, a stray
    file and two assets; [q1/src] has six scripts, [q2/src] scripts of 3,
    501 and 500 lines. *)

Definition script (n : nat) : node := File 64 (repeat "pass" n).

Definition sample_disk : node :=
  Dir 4096
    [("repo",
      Dir 4096
        [("q2", Dir 4096
            [("src", Dir 4096
                [("long.py", script 501); ("a.py", script 3);
                 ("limit.py", script 500); ("data.txt", script 900)])]);
         ("README.md", script 2);
         ("q1", Dir 4096
            [("src", Dir 4096
                [("f.py", script 1); ("e.py", script 1); ("d.py", script 1);
                 ("c.py", script 1); ("b.py", script 1); ("a.py", script 1)])]);
         ("notes.txt", script 1);
         ("assets", Dir 4096
            [("big.PNG", File (5 * 1024 * 1024 + 1) []);
             ("ok.png", File (5 * 1024 * 1024) [])]);
         (".git", Dir 4096 [("HEAD", script 1)])])].

Definition sample_root : Path := resolve_path "/repo".

(** A world where [git] is not installed. *)
Definition sample_world : World :=
  {| disk := sample_disk;
     run_process := fun _ => Raise FileNotFoundError;
     environ_IS_INSTRUCTOR := None;
     console_renders := Markup.renders |}.

(** The state a run returns, [initial_state] when it raises. *)
Definition state_of (r : result State) : State :=
  match r with
  | Ok st => st
  | Raise _ => initial_state
  end.

Definition sample_local_state : State :=
  state_of (evaluate default_constraints sample_world sample_root true false).

Definition path_eq_dec (p q : Path) : {p = q} + {p <> q} := decide (p = q).

(** How many times the path [p] is in the candidate list [files]. *)
Definition times_listed (p : Path) (files : list Path) : nat :=
  count_occ path_eq_dec files p.

(** A world where [git diff] lists a deleted file, [old.txt], and an
    existing one, [notes.txt]. *)
Definition ci_world : World :=
  {| disk := sample_disk;
     run_process := fun _ =>
       Ok {| returncode := 0;
             output := "old.txt" +:+ LF +:+ "notes.txt" +:+ LF |};
     environ_IS_INSTRUCTOR := None;
     console_renders := Markup.renders |}.

Definition sample_ci_state : State :=
  state_of (evaluate default_constraints ci_world sample_root false false).

(** A list of paths in ascending order of [<]: no path is followed by a
    smaller one. *)
Fixpoint ascending (l : list Path) : bool :=
  match l with
  | p :: (q :: _) as l' => negb (Pth.ltb q p) && ascending l'
  | _ => true
  end.

(** ** The paths a diff lists

    Each non-blank line of the output of [git diff --name-only], without
    its surrounding white space, resolved against root. *)

Definition changed_paths (root : Path) (out : string) : list Path :=
  map (fun line => Pth.joinpath root (Text.strip line))
      (List.filter (fun line => negb (String.eqb (Text.strip line) EmptyString))
                   (Text.splitlines (Text.strip out))).

(** A string with a character that is not white space. *)
Fixpoint has_text (s : string) : bool :=
  match s with
  | EmptyString => false
  | String c s' => negb (Text.isspace c) || has_text s'
  end.

(** A world where [git diff] exits with status 128. *)
Definition failing_git_world : World :=
  {| disk := sample_disk;
     run_process := fun _ =>
       Ok {| returncode := 128;
             output := "fatal: ambiguous argument 'origin/main...HEAD'" |};
     environ_IS_INSTRUCTOR := None;
     console_renders := Markup.renders |}.

(** ** Candidates below root

    A decidable condition on a candidate list: every candidate that is on
    disk lies below root. *)

Definition candidates_below_root (w : World) (root : Path)
    (files : list Path) : bool :=
  forallb (fun p => negb (exists_ (disk w) p)
                    || bool_decide (is_Some (Pth.relative_to p root)))
          files.



(** ** Induction on trees *)

Section NodeInduction.

Variable P : node -> Prop.
Hypothesis P_File : forall sz ls, P (File sz ls).
Hypothesis P_Dir :
  forall sz es, Forall (fun e => P (snd e)) es -> P (Dir sz es).

(** Induction on a tree, with the property for every entry of a
    directory. *)
Fixpoint node_induction (n : node) : P n :=
  match n with
  | File sz ls => P_File sz ls
  | Dir sz es =>
      P_Dir sz es
        ((fix entries (es : list (string * node))
            : Forall (fun e => P (snd e)) es :=
            match es return Forall (fun e => P (snd e)) es with
            | [] => List.Forall_nil _
            | e :: es' =>
                List.Forall_cons _ e es' (node_induction (snd e)) (entries es')
            end) es)
  end.

End NodeInduction.

(** A submission with a file named red].txt in a directory named
    notes[ , which the diff lists. *)
Definition markup_world : World :=
  {| disk :=
       Dir 4096
         [("repo",
           Dir 4096
             [("notes[", Dir 4096 [("red].txt", script 1)]);
              ("README.md", script 2)])];
     run_process := fun _ =>
       Ok {| returncode := 0; output := "notes[/red].txt" +:+ LF |};
     environ_IS_INSTRUCTOR := None;
     console_renders := Markup.renders |}.

(** A submission that breaks no rule. *)
Definition clean_world : World :=
  {| disk :=
       Dir 4096
         [("repo",
           Dir 4096
             [("q1", Dir 4096
                 [("src", Dir 4096 [("b.py", script 500); ("a.py", script 3)])]);
              ("README.md", script 2)])];
     run_process := fun _ => Raise FileNotFoundError;
     environ_IS_INSTRUCTOR := Some "TRUE";
     console_renders := Markup.renders |}.

(** ** Further properties: decidable conditions on a run *)

Definition is_forbidden (v : violation) : bool :=
  match v with
  | ForbiddenModification _ => true
  | _ => false
  end.

(** Every non-blank line of the diff is a relative path. *)
Definition diff_is_relative (w : World) (root : Path) : bool :=
  match check_output w (diff_cmd root) with
  | Ok out =>
      forallb (fun line => negb (Text.startswith (Text.strip line) "/"))
              (Text.splitlines (Text.strip out))
  | Raise _ => true
  end.

(** No candidate on disk is an asset above the size limit. *)
Definition assets_within_limit (c : Constraints) (w : World)
    (files : list Path) : bool :=
  forallb (fun p =>
             negb (mem (Text.lower (Pth.suffix p)) (asset_exts c))
             || match stat_size (disk w) p with
                | Ok size => size <=? max_asset_size_bytes c
                | Raise _ => true
                end)
          files.

(** Every candidate on disk and below root is in ["src"], in ["assets"]
    or whitelisted. *)
Definition modifications_permitted (c : Constraints) (w : World) (root : Path)
    (files : list Path) : bool :=
  forallb (fun p =>
             negb (exists_ (disk w) p)
             || match Pth.relative_to p root with
                | Some rel =>
                    elem "src" rel || elem "assets" rel
                    || mem (Pth.name rel) (whitelisted_files c)
                | None => true
                end)
          files.

(** Every question directory with a [src] has at most [max_src_files]
    scripts, each of at most [max_line_count] lines. *)
Definition questions_within_limits (c : Constraints) (w : World) (root : Path)
  : bool :=
  match question_dirs c w root with
  | Ok q_dirs =>
      forallb
        (fun d =>
           let src_path := Pth.joinpath d "src" in
           let py_files := glob_ext (disk w) src_path (target_ext c) in
           negb (exists_ (disk w) src_path)
           || ((Z.of_nat (length py_files) <=? max_src_files c)
               && forallb (fun f =>
                             match open_lines (disk w) f with
                             | Ok ls =>
                                 Z.of_nat (length ls) <=? max_line_count c
                             | Raise _ => true
                             end)
                          py_files))
        q_dirs
  | Raise _ => true
  end.

Definition clean_state : State :=
  state_of (evaluate default_constraints clean_world sample_root false true).

(** A segment of a resolved path: no ["/"] in it, not empty, not ["."],
    not [".."]. *)
Definition normal_segment (s : string) : Prop :=
  contains "/" s = false /\ s <> EmptyString /\ s <> "." /\ s <> "..".



(** * Properties *)

(** ** Sample runs *)

Example local_run_of_sample :
  main sample_world true "/repo"
  = ([Panel ("[bold blue]Assignment Governance Check[/bold blue]" +:+ LF
             +:+ "Mode: Local");
      Table "Violations Found"
        [("Constraint Error", "Asset [bold]assets/big.PNG[/bold] exceeds 5MB.");
         ("Constraint Error", "q1/src has too many scripts.");
         ("Constraint Error", "File [bold]q2/src/long.py[/bold] > 500 lines.")]],
     Ok 1).
Proof. vm_compute. reflexivity. Qed.

Example student_run_of_sample :
  main ci_world false "/repo"
  = ([Panel ("[bold blue]Assignment Governance Check[/bold blue]" +:+ LF
             +:+ "Mode: Student (CI/CD)");
      Table "Violations Found"
        [("Constraint Error", "Forbidden modification: [bold]notes.txt[/bold].");
         ("Constraint Error", "q1/src has too many scripts.");
         ("Constraint Error", "File [bold]q2/src/long.py[/bold] > 500 lines.")]],
     Ok 1).
Proof. vm_compute. reflexivity. Qed.

Example instructor_run_of_clean :
  main clean_world false "repo/."
  = ([Panel ("[bold blue]Assignment Governance Check[/bold blue]" +:+ LF
             +:+ "Mode: Instructor Bypass");
      Line (LF +:+ "[bold green]âœ“[/bold green] All checks passed successfully!")],
     Ok 0).
Proof. vm_compute. reflexivity. Qed.

Example diff_lines :
  changed_paths sample_root
    ("  q1/src/a.py " +:+ LF +:+ LF +:+ "docs//notes.md" +:+ LF)
  = [sample_root ++ ["q1"; "src"; "a.py"]; sample_root ++ ["docs"; "notes.md"]].
Proof. vm_compute. reflexivity. Qed.

(** ** Paths *)

Section PathFacts.

Lemma strip_prefix_Some pre p rel :
  Pth.strip_prefix pre p = Some rel <-> p = pre ++ rel.
Proof.
  revert p; induction pre as [|a pre IH]; intros p; simpl.
  - split; [intros [= ->]; reflexivity | intros ->; reflexivity].
  - destruct p as [|b p]; [split; discriminate|].
    destruct (String.eqb_spec a b) as [->|Hne].
    + rewrite IH. split; [intros ->; reflexivity | intros [= ->]; reflexivity].
    + split; [discriminate | intros [= <- _]; contradiction].
Qed.

Lemma relative_to_Some p root rel :
  Pth.relative_to p root = Some rel ->
  p = root ++ rel /\ Pth.has_anchor rel = false.
Proof.
  unfold Pth.relative_to.
  destruct (Pth.strip_prefix root p) as [r|] eqn:E; [|discriminate].
  destruct (Pth.has_anchor r) eqn:Ha; [discriminate|].
  intros [= <-]. apply strip_prefix_Some in E. auto.
Qed.

Lemma relative_to_app root rel :
  Pth.has_anchor rel = false -> Pth.relative_to (root ++ rel) root = Some rel.
Proof.
  intros Ha. unfold Pth.relative_to.
  assert (E : Pth.strip_prefix root (root ++ rel) = Some rel)
    by (apply strip_prefix_Some; reflexivity).
  rewrite E, Ha. reflexivity.
Qed.

(** A path below root has one relative path. *)
Lemma relative_to_inj p q root rel :
  Pth.relative_to p root = Some rel -> Pth.relative_to q root = Some rel ->
  p = q.
Proof.
  intros [-> _]%relative_to_Some [-> _]%relative_to_Some. reflexivity.
Qed.

Lemma tail_parts_app root rel :
  Pth.has_anchor root = true ->
  Pth.tail_parts (root ++ rel) = Pth.tail_parts root ++ rel.
Proof.
  destruct root as [|a root]; [discriminate|]. simpl.
  unfold Pth.tail_parts. simpl. intros ->. reflexivity.
Qed.

Lemma name_snoc root n :
  Pth.has_anchor root = true -> Pth.name (root ++ [n]) = n.
Proof.
  intros Ha. unfold Pth.name. rewrite tail_parts_app by assumption.
  rewrite last_snoc. reflexivity.
Qed.

Lemma joinpath_src p : Pth.joinpath p "src" = p ++ ["src"].
Proof. reflexivity. Qed.


End PathFacts.

(** ** Loops *)

Section Loops.

Context {A : Type}.

(** A loop whose body, when it returns, appends to the violation list
    what [emitted] says, collects the concatenation. *)
Lemma for_each_emits (body : A -> State -> result State)
    (emitted : A -> list violation) :
  (forall x st st', body x st = Ok st' ->
                    violations st' = violations st ++ emitted x) ->
  forall l st st', for_each body l st = Ok st' ->
    violations st' = violations st ++ concat (map emitted l).
Proof.
  intros Hbody l; induction l as [|x l IH]; intros st st' H; simpl in *.
  - injection H as <-. rewrite app_nil_r. reflexivity.
  - destruct (body x st) as [s1|e] eqn:E; simpl in H; [|discriminate].
    rewrite (IH _ _ H), (Hbody _ _ _ E), <- app_assoc. reflexivity.
Qed.

(** A loop whose body returns on every element of the list returns. *)
Lemma for_each_total (body : A -> State -> result State) (l : list A) :
  (forall x st, In x l -> exists st', body x st = Ok st') ->
  forall st, exists st', for_each body l st = Ok st'.
Proof.
  induction l as [|x l IH]; intros Hbody st; simpl.
  - eauto.
  - destruct (Hbody x st (or_introl eq_refl)) as [s1 ->]. simpl.
    apply IH. intros y s Hy. apply Hbody. right; assumption.
Qed.

End Loops.

Lemma occurrences_app v l1 l2 :
  occurrences v (l1 ++ l2) = (occurrences v l1 + occurrences v l2)%nat.
Proof. apply count_occ_app. Qed.

Lemma occurrences_concat_zero {A} v (f : A -> list violation) (l : list A) :
  (forall x, In x l -> occurrences v (f x) = 0%nat) ->
  occurrences v (concat (map f l)) = 0%nat.
Proof.
  induction l as [|x l IH]; intros H; simpl; [reflexivity|].
  rewrite occurrences_app, H, IH; auto using in_cons, in_eq.
Qed.

(** In a duplicate-free list, the occurrences collected over the list are
    those of the one element that emits [v]. *)
Lemma occurrences_concat_one {A} v (f : A -> list violation) (l : list A) x :
  List.NoDup l -> In x l ->
  (forall y, In y l -> y <> x -> occurrences v (f y) = 0%nat) ->
  occurrences v (concat (map f l)) = occurrences v (f x).
Proof.
  induction l as [|y l IH]; intros Hnd Hin Hother; [destruct Hin|].
  inversion Hnd as [|? ? Hy Hnd']; subst. simpl. rewrite occurrences_app.
  destruct Hin as [->|Hin].
  - rewrite occurrences_concat_zero; [lia|].
    intros z Hz. apply Hother; [right; assumption|].
    intros ->. contradiction.
  - rewrite Hother; [|left; reflexivity|intros ->; contradiction].
    rewrite IH; auto. intros z Hz Hne. apply Hother; [right|]; assumption.
Qed.

(** ** The loop bodies collect what [candidate_emitted] and
    [question_dir_emitted] say *)

Section Bodies.

Variables (c : Constraints) (w : World) (root : Path).

Lemma asset_rule_emits p st st' :
  asset_rule c w root p st = Ok st' ->
  violations st' = violations st ++ asset_emitted c w root p.
Proof.
  unfold asset_rule, asset_emitted, relative_to_or_raise.
  destruct (mem _ _); [|intros [= <-]; symmetry; apply app_nil_r].
  destruct (stat_size (disk w) p) as [sz|e]; simpl; [|discriminate].
  destruct (sz >? _).
  - destruct (Pth.relative_to p root); simpl; [|discriminate].
    intros [= <-]. reflexivity.
  - destruct (Pth.relative_to p root); intros [= <-];
      symmetry; apply app_nil_r.
Qed.

Lemma scope_rule_emits p local is_instructor st :
  violations (scope_rule c root p local is_instructor st)
  = violations st ++ scope_emitted c root p local is_instructor.
Proof.
  unfold scope_rule, scope_emitted.
  destruct (negb local && negb is_instructor);
    [|symmetry; apply app_nil_r].
  destruct (Pth.relative_to p root) as [rel|];
    [|symmetry; apply app_nil_r].
  destruct (negb _); [reflexivity | symmetry; apply app_nil_r].
Qed.

Lemma check_candidate_emits local is_instructor p st st' :
  check_candidate c w root local is_instructor p st = Ok st' ->
  violations st' = violations st
                   ++ candidate_emitted c w root local is_instructor p.
Proof.
  unfold check_candidate, candidate_emitted.
  destruct (exists_ (disk w) p); simpl;
    [|intros [= <-]; symmetry; apply app_nil_r].
  destruct (asset_rule c w root p st) as [s1|e] eqn:E; simpl; [|discriminate].
  intros [= <-]. rewrite scope_rule_emits, (asset_rule_emits _ _ _ E).
  symmetry; apply app_assoc.
Qed.

Lemma check_source_file_emits f st st' :
  check_source_file c w root f st = Ok st' ->
  violations st' = violations st ++ source_file_emitted c w root f.
Proof.
  unfold check_source_file, source_file_emitted, relative_to_or_raise.
  destruct (open_lines (disk w) f) as [ls|e]; simpl; [|discriminate].
  destruct (_ >? _).
  - destruct (Pth.relative_to f root); simpl; [|discriminate].
    intros [= <-]. reflexivity.
  - destruct (Pth.relative_to f root); intros [= <-];
      symmetry; apply app_nil_r.
Qed.

Lemma check_question_dir_emits d st st' :
  check_question_dir c w root d st = Ok st' ->
  violations st' = violations st ++ question_dir_emitted c w root d.
Proof.
  unfold check_question_dir, question_dir_emitted.
  destruct (exists_ (disk w) (Pth.joinpath d "src"));
    [|intros [= <-]; symmetry; apply app_nil_r].
  intros H.
  apply (for_each_emits _ _ check_source_file_emits) in H. rewrite H.
  destruct (_ >? _); simpl; rewrite <- ?app_assoc; reflexivity.
Qed.

(** A run that returns has collected, in order, what each candidate and
    then each question directory emits. *)
Lemma run_rules_emits local is_instructor files st :
  run_rules c w root local is_instructor files = Ok st ->
  exists q_dirs,
    question_dirs c w root = Ok q_dirs /\
    violations st
    = concat (map (candidate_emitted c w root local is_instructor) files)
      ++ concat (map (question_dir_emitted c w root) q_dirs).
Proof.
  unfold run_rules.
  destruct (for_each _ files initial_state) as [s1|e] eqn:E1; simpl;
    [|discriminate].
  destruct (question_dirs c w root) as [q_dirs|e]; simpl; [|discriminate].
  intros E2. exists q_dirs. split; [reflexivity|].
  apply (for_each_emits _ _ check_question_dir_emits) in E2.
  apply (for_each_emits _ _
           (check_candidate_emits local is_instructor)) in E1.
  rewrite E2, E1. reflexivity.
Qed.

End Bodies.

(** ** The file system *)

Section FileSystem.

Lemma lookup_entry_In s es child :
  lookup_entry s es = Some child -> In (s, child) es.
Proof.
  induction es as [|[n ch] es IH]; simpl; [discriminate|].
  destruct (String.eqb_spec s n) as [->|_].
  - intros [= ->]. left; reflexivity.
  - intros H. right. apply IH, H.
Qed.

Lemma wf_node_Dir sz es :
  wf_node (Dir sz es) = true ->
  NoDup (map fst es) /\
  forall name child, In (name, child) es ->
                     wf_name name = true /\ wf_node child = true.
Proof.
  simpl. intros [Hnd Hall]%andb_prop. split.
  - apply bool_decide_eq_true in Hnd. exact Hnd.
  - intros name child Hin. rewrite forallb_forall in Hall.
    apply Hall in Hin. apply andb_prop in Hin. exact Hin.
Qed.

(** Resolution stays inside a well-formed tree. *)
Lemma walk_wf parts : forall anc cur n,
  wf_node cur = true -> Forall (fun a => wf_node a = true) anc ->
  walk anc cur parts = Some n -> wf_node n = true.
Proof.
  induction parts as [|s rest IH]; intros anc cur n Hcur Hanc; simpl.
  - intros [= <-]. exact Hcur.
  - destruct cur as [sz ls|sz es]; [discriminate|].
    destruct (String.eqb s "..").
    { destruct anc as [|up anc']; [apply IH; auto|].
      inversion Hanc; subst. apply IH; auto. }
    destruct (String.eqb s "."); [apply IH; auto|].
    destruct (lookup_entry s es) as [child|] eqn:E; [|discriminate].
    apply IH; [|constructor; assumption].
    apply lookup_entry_In in E.
    destruct (wf_node_Dir _ _ Hcur) as [_ Hall]. apply (Hall _ _ E).
Qed.

Lemma resolve_wf fs p n :
  wf_node fs = true -> resolve fs p = Some n -> wf_node n = true.
Proof. intros Hwf. apply walk_wf; [assumption | constructor]. Qed.

(** On plain parts, resolution is descent by names. *)
Lemma walk_plain parts : forall anc cur,
  plain parts -> walk anc cur parts = descend cur parts.
Proof.
  induction parts as [|s rest IH]; intros anc cur Hp; simpl; [reflexivity|].
  inversion Hp as [|? ? Hs Hrest]; subst.
  destruct cur as [sz ls|sz es]; [reflexivity|].
  destruct (String.eqb_spec s "..") as [->|_]; [discriminate|].
  destruct (String.eqb_spec s ".") as [->|_]; [discriminate|].
  destruct (lookup_entry s es); [apply IH; assumption | reflexivity].
Qed.

Lemma descend_app a : forall cur b,
  descend cur (a ++ b)
  = match descend cur a with Some n => descend n b | None => None end.
Proof.
  induction a as [|s a IH]; intros cur b; simpl; [reflexivity|].
  destruct cur as [sz ls|sz es]; [reflexivity|].
  destruct (lookup_entry s es); [apply IH | reflexivity].
Qed.

Lemma is_file_exists fs p : is_file fs p = true -> exists_ fs p = true.
Proof.
  unfold is_file, exists_. destruct (resolve fs p); [reflexivity|discriminate].
Qed.

Lemma open_lines_exists fs f ls : open_lines fs f = Ok ls -> exists_ fs f = true.
Proof.
  unfold open_lines, exists_.
  destruct (resolve fs f) as [[]|]; [reflexivity|discriminate..].
Qed.

Lemma is_file_open_lines fs f :
  is_file fs f = true -> exists ls, open_lines fs f = Ok ls.
Proof.
  unfold is_file, open_lines.
  destruct (resolve fs f) as [[sz ls|]|]; [eauto|discriminate..].
Qed.

Lemma exists_stat_size fs p :
  exists_ fs p = true -> exists size, stat_size fs p = Ok size.
Proof.
  unfold exists_, stat_size. destruct (resolve fs p); [eauto|discriminate].
Qed.

Lemma stat_size_exists fs p size :
  stat_size fs p = Ok size -> exists_ fs p = true.
Proof.
  unfold exists_, stat_size. destruct (resolve fs p); [reflexivity|discriminate].
Qed.

(** [glob_ext] lists direct children only, by name, each once. *)
Lemma glob_ext_In fs src ext f :
  In f (glob_ext fs src ext) ->
  exists name, f = src ++ [name] /\ Text.endswith name ext = true.
Proof.
  unfold glob_ext. destruct (resolve fs src) as [[|sz es]|]; try intros [].
  rewrite in_map_iff. intros [[n ch] [<- Hin]].
  apply filter_In in Hin as [_ Hn]. eauto.
Qed.

Lemma NoDup_map_snoc (base : Path) (names : list string) :
  List.NoDup names -> List.NoDup (map (fun n => base ++ [n]) names).
Proof.
  intros H. apply Finite.Injective_map_NoDup; [|assumption].
  intros a b Hab. apply app_inv_head in Hab. congruence.
Qed.

Lemma NoDup_fst_filter (es : list (string * node)) (f : string * node -> bool) :
  List.NoDup (map fst es) -> List.NoDup (map fst (List.filter f es)).
Proof.
  induction es as [|e es IH]; simpl; [constructor|].
  intros H. inversion H as [|? ? Hn Hnd]; subst.
  destruct (f e); simpl; [|auto].
  constructor; [|auto].
  rewrite in_map_iff in *. intros [x [Hx Hin]]. apply Hn.
  exists x. split; [assumption|]. apply filter_In in Hin. apply Hin.
Qed.

Lemma glob_ext_NoDup fs src ext :
  wf_node fs = true -> List.NoDup (glob_ext fs src ext).
Proof.
  intros Hwf. unfold glob_ext.
  destruct (resolve fs src) as [[|sz es]|] eqn:E; try constructor.
  apply resolve_wf in E; [|assumption].
  destruct (wf_node_Dir _ _ E) as [Hnd _].
  rewrite <- (map_map fst (fun n => src ++ [n])).
  apply NoDup_map_snoc, NoDup_fst_filter, NoDup_ListNoDup, Hnd.
Qed.

Lemma iterdir_In fs root ds d :
  iterdir fs root = Ok ds -> In d ds -> exists name, d = root ++ [name].
Proof.
  unfold iterdir. destruct (resolve fs root) as [[|sz es]|]; try discriminate.
  intros [= <-]. rewrite in_map_iff. intros [[n ch] [<- _]]. eauto.
Qed.

Lemma iterdir_NoDup fs root ds :
  wf_node fs = true -> iterdir fs root = Ok ds -> List.NoDup ds.
Proof.
  intros Hwf. unfold iterdir.
  destruct (resolve fs root) as [[|sz es]|] eqn:E; try discriminate.
  intros [= <-]. apply resolve_wf in E; [|assumption].
  destruct (wf_node_Dir _ _ E) as [Hnd _].
  rewrite <- (map_map fst (fun n => root ++ [n])).
  apply NoDup_map_snoc, NoDup_ListNoDup, Hnd.
Qed.

End FileSystem.

(** ** Sorting *)

Lemma insert_sorted_perm x l : Permutation (insert_sorted x l) (x :: l).
Proof.
  induction l as [|y l IH]; simpl; [reflexivity|].
  destruct (Pth.ltb y x); [|reflexivity].
  rewrite IH. apply perm_swap.
Qed.

Lemma sorted_perm l : Permutation (sorted l) l.
Proof.
  induction l as [|x l IH]; simpl; [reflexivity|].
  rewrite insert_sorted_perm, IH. reflexivity.
Qed.

(** ** Where each violation comes from *)

Section Origins.

Variables (c : Constraints) (w : World) (root : Path).

Lemma asset_emitted_In v p :
  In v (asset_emitted c w root p) ->
  exists rel size,
    v = AssetTooBig rel /\ Pth.relative_to p root = Some rel /\
    stat_size (disk w) p = Ok size /\ size > max_asset_size_bytes c /\
    mem (Text.lower (Pth.suffix p)) (asset_exts c) = true.
Proof.
  unfold asset_emitted.
  destruct (mem _ _) eqn:Hm; [|intros []].
  destruct (stat_size (disk w) p) as [size|]; [|intros []].
  destruct (Pth.relative_to p root) as [rel|]; [|intros []].
  destruct (size >? _) eqn:Hs; [|intros []].
  intros [<-|[]]. exists rel, size. repeat split; auto. lia.
Qed.

Lemma scope_emitted_In v p local is_instructor :
  In v (scope_emitted c root p local is_instructor) ->
  exists rel,
    v = ForbiddenModification rel /\ Pth.relative_to p root = Some rel /\
    local = false /\ is_instructor = false /\
    elem "src" rel = false /\ elem "assets" rel = false /\
    mem (Pth.name rel) (whitelisted_files c) = false.
Proof.
  unfold scope_emitted.
  destruct local; [intros []|]. destruct is_instructor; [intros []|]. simpl.
  destruct (Pth.relative_to p root) as [rel|]; [|intros []].
  destruct (elem "src" rel) eqn:E1, (elem "assets" rel) eqn:E2,
    (mem (Pth.name rel) _) eqn:E3; simpl; intros H;
    try (destruct H; fail).
  destruct H as [<-|[]]. exists rel. repeat split; auto.
Qed.

Lemma candidate_emitted_In v local is_instructor p :
  In v (candidate_emitted c w root local is_instructor p) ->
  exists_ (disk w) p = true /\
  (In v (asset_emitted c w root p)
   \/ In v (scope_emitted c root p local is_instructor)).
Proof.
  unfold candidate_emitted.
  destruct (exists_ (disk w) p); [|intros []].
  rewrite in_app_iff. auto.
Qed.

Lemma source_file_emitted_In v f :
  In v (source_file_emitted c w root f) ->
  exists rel ls,
    v = TooManyLines rel (max_line_count c) /\
    Pth.relative_to f root = Some rel /\ open_lines (disk w) f = Ok ls /\
    Z.of_nat (length ls) > max_line_count c.
Proof.
  unfold source_file_emitted.
  destruct (open_lines (disk w) f) as [ls|]; [|intros []].
  destruct (Pth.relative_to f root) as [rel|]; [|intros []].
  destruct (_ >? _) eqn:Hs; [|intros []].
  intros [<-|[]]. exists rel, ls. repeat split; auto. lia.
Qed.

Lemma question_dir_emitted_In v d :
  In v (question_dir_emitted c w root d) ->
  exists_ (disk w) (Pth.joinpath d "src") = true /\
  (v = TooManyScripts (Pth.name d)
   \/ exists f, In f (glob_ext (disk w) (Pth.joinpath d "src") (target_ext c))
                /\ In v (source_file_emitted c w root f)).
Proof.
  unfold question_dir_emitted.
  destruct (exists_ (disk w) (Pth.joinpath d "src")); [|intros []].
  rewrite in_app_iff. intros [H|H]; split; auto.
  - destruct (_ >? _); [|destruct H].
    destruct H as [<-|[]]. left; reflexivity.
  - right. apply in_concat in H as [l [Hl Hv]].
    apply in_map_iff in Hl as [f [<- Hf]]. eauto.
Qed.

(** In a run's list, a violation comes from a candidate or from a
    question directory. *)
Lemma In_concat_map {A} (f : A -> list violation) l v :
  In v (concat (map f l)) <-> exists x, In x l /\ In v (f x).
Proof.
  rewrite in_concat. split.
  - intros [vs [Hvs Hv]]. apply in_map_iff in Hvs as [x [<- Hx]]. eauto.
  - intros [x [Hx Hv]]. exists (f x). split; [apply in_map, Hx | exact Hv].
Qed.

Lemma occurrences_zero v vs : ~ In v vs -> occurrences v vs = 0%nat.
Proof. apply count_occ_not_In. Qed.

End Origins.

(** ** Source-file count rule *)

Section CountRules.

Variables (c : Constraints) (w : World) (root : Path).
Hypothesis wf_disk : wf_node (disk w) = true.
Hypothesis root_absolute : Pth.has_anchor root = true.

Lemma question_dirs_spec q_dirs :
  question_dirs c w root = Ok q_dirs ->
  exists ds,
    iterdir (disk w) root = Ok ds /\
    Permutation q_dirs
      (List.filter (fun d => is_dir (disk w) d
                             && Text.startswith (Pth.name d) (question_prefix c))
                   ds).
Proof.
  unfold question_dirs.
  destruct (iterdir (disk w) root) as [ds|]; simpl; [|discriminate].
  intros [= <-]. exists ds. split; [reflexivity | apply sorted_perm].
Qed.

Lemma question_dirs_NoDup q_dirs :
  question_dirs c w root = Ok q_dirs -> List.NoDup q_dirs.
Proof.
  intros [ds [Hds Hperm]]%question_dirs_spec.
  eapply Permutation_NoDup; [symmetry; exact Hperm|].
  apply List.NoDup_filter. eapply iterdir_NoDup; eauto.
Qed.

Lemma question_dirs_In q_dirs d :
  question_dirs c w root = Ok q_dirs ->
  (In d q_dirs <->
   exists ds, iterdir (disk w) root = Ok ds /\ In d ds /\
              is_dir (disk w) d = true /\
              Text.startswith (Pth.name d) (question_prefix c) = true).
Proof.
  intros [ds [Hds Hperm]]%question_dirs_spec. split.
  - intros Hin. exists ds. split; [assumption|].
    apply (Permutation_in _ Hperm) in Hin.
    apply filter_In in Hin as [Hin [? ?]%andb_prop]. auto.
  - intros [ds' [Hds' [Hin [Hd Hn]]]].
    rewrite Hds in Hds'. injection Hds' as <-.
    apply (Permutation_in _ (Permutation_sym Hperm)).
    apply filter_In. split; [assumption|]. rewrite Hd, Hn. reflexivity.
Qed.

Lemma question_dir_name q_dirs d :
  question_dirs c w root = Ok q_dirs -> In d q_dirs ->
  d = root ++ [Pth.name d].
Proof.
  intros Hq Hin. apply (question_dirs_In _ _ Hq) in Hin.
  destruct Hin as [ds [Hds [Hin _]]].
  destruct (iterdir_In _ _ _ _ Hds Hin) as [n ->].
  rewrite name_snoc by assumption. reflexivity.
Qed.





End CountRules.

Lemma sample_local_run :
  run_rules default_constraints sample_world sample_root true false
    (get_files_to_check sample_world sample_root true
       (ignored_parts default_constraints))
  = Ok sample_local_state.
Proof. vm_compute. reflexivity. Qed.


(** ** Source-file line-count rule *)

Section LineRule.

Variables (c : Constraints) (w : World) (root : Path).
Hypothesis wf_disk : wf_node (disk w) = true.
Hypothesis root_absolute : Pth.has_anchor root = true.

Lemma candidates_no_TooManyLines local is_instructor files rel limit :
  occurrences (TooManyLines rel limit)
    (concat (map (candidate_emitted c w root local is_instructor) files))
  = 0%nat.
Proof.
  apply occurrences_zero. rewrite In_concat_map.
  intros [p [_ Hv]]. apply candidate_emitted_In in Hv as [_ [Hv|Hv]].
  - apply asset_emitted_In in Hv as (? & ? & ? & _). discriminate.
  - apply scope_emitted_In in Hv as (? & ? & _). discriminate.
Qed.

Lemma source_file_emitted_count f ls rel limit :
  open_lines (disk w) f = Ok ls -> Pth.relative_to f root = Some rel ->
  occurrences (TooManyLines rel limit) (source_file_emitted c w root f)
  = if (limit =? max_line_count c)
       && (Z.of_nat (length ls) >? max_line_count c)
    then 1%nat else 0%nat.
Proof.
  intros Hopen Hrel. unfold source_file_emitted. rewrite Hopen, Hrel.
  destruct (_ >? _); [|rewrite andb_false_r; reflexivity].
  rewrite andb_true_r. unfold occurrences.
  destruct (Z.eqb_spec limit (max_line_count c)) as [->|Hne].
  - rewrite count_occ_cons_eq by reflexivity. reflexivity.
  - rewrite count_occ_cons_neq by congruence. reflexivity.
Qed.

(** Two scripts of the question directories with one relative path are
    one script of one directory. *)
Lemma source_file_emitted_same_file f f' rel limit :
  Pth.relative_to f root = Some rel ->
  In (TooManyLines rel limit) (source_file_emitted c w root f') -> f' = f.
Proof.
  intros Hrel Hv.
  apply source_file_emitted_In in Hv as (rel' & _ & [= <- _] & Hrel' & _).
  eapply relative_to_inj; eauto.
Qed.

(** C4. For a script [f] counted by the source-file count rule, with
    lines [ls] and path [rel] relative to root: the loop body returns and
    appends one violation naming [rel] when the number of lines strictly
    exceeds [max_line_count] (500 by default), nothing otherwise; and a
    run that returns has collected that violation exactly once in the
    first case and not at all in the second.  So 501 lines give one
    violation and 500 lines none. *)
Theorem C4_line_count_rule local is_instructor files st ds d f ls rel :
  run_rules c w root local is_instructor files = Ok st ->
  iterdir (disk w) root = Ok ds -> In d ds ->
  is_dir (disk w) d = true ->
  Text.startswith (Pth.name d) (question_prefix c) = true ->
  exists_ (disk w) (Pth.joinpath d "src") = true ->
  In f (glob_ext (disk w) (Pth.joinpath d "src") (target_ext c)) ->
  open_lines (disk w) f = Ok ls ->
  Pth.relative_to f root = Some rel ->
  let count := Z.of_nat (length ls) in
  (forall st0, exists st1,
      check_source_file c w root f st0 = Ok st1 /\
      violations st1
      = violations st0
        ++ (if count >? max_line_count c
            then [TooManyLines rel (max_line_count c)] else []))
  /\ (forall limit,
        occurrences (TooManyLines rel limit) (violations st)
        = if (limit =? max_line_count c) && (count >? max_line_count c)
          then 1%nat else 0%nat)
  /\ (max_line_count c = 500 -> count = 501 ->
      occurrences (TooManyLines rel 500) (violations st) = 1%nat)
  /\ (max_line_count c = 500 -> count = 500 ->
      forall limit, occurrences (TooManyLines rel limit) (violations st) = 0%nat)
  /\ max_line_count default_constraints = 500.
Proof.
  intros Hrun Hds Hin Hdir Hname Hsrc Hf Hopen Hrel count.
  assert (Hrun_count : forall limit,
    occurrences (TooManyLines rel limit) (violations st)
    = if (limit =? max_line_count c) && (count >? max_line_count c)
      then 1%nat else 0%nat).
  { intros limit.
    destruct (run_rules_emits _ _ _ _ _ _ _ Hrun) as [q_dirs [Hq ->]].
    rewrite occurrences_app, candidates_no_TooManyLines. simpl.
    assert (Hd : In d q_dirs).
    { apply (question_dirs_In _ _ _ _ _ Hq). exists ds. auto. }
    rewrite (occurrences_concat_one _ _ _ d);
      [|eapply question_dirs_NoDup; eauto | exact Hd |].
    - unfold question_dir_emitted. rewrite Hsrc, occurrences_app.
      replace (occurrences _ (if _ >? _ then _ else _)) with 0%nat
        by (destruct (_ >? _); reflexivity).
      rewrite (occurrences_concat_one _ _ _ f);
        [apply source_file_emitted_count; assumption
        |apply glob_ext_NoDup; assumption | exact Hf |].
      intros f' _ Hne. apply occurrences_zero. intros Hv.
      apply Hne. eapply source_file_emitted_same_file; eauto.
    - intros d' Hd' Hne. apply occurrences_zero. intros Hv.
      apply question_dir_emitted_In in Hv as [_ [Hv|[f' [Hf' Hv]]]];
        [discriminate|].
      apply (source_file_emitted_same_file _ _ _ _ Hrel) in Hv. subst f'.
      apply glob_ext_In in Hf as [n [Hn _]].
      apply glob_ext_In in Hf' as [n' [Hn' _]].
      rewrite joinpath_src in Hn, Hn'. rewrite Hn in Hn'.
      apply app_inj_tail in Hn' as [Hn' _].
      apply app_inj_tail in Hn' as [Hn' _]. congruence. }
  split; [|split; [exact Hrun_count|split; [|split; [|reflexivity]]]].
  - intros st0. unfold check_source_file, relative_to_or_raise.
    rewrite Hopen, Hrel. simpl. fold count.
    destruct (count >? max_line_count c); simpl; eexists; split;
      try reflexivity.
    simpl. symmetry; apply app_nil_r.
  - intros Hmax Hc. rewrite Hrun_count, Hmax, Hc. reflexivity.
  - intros Hmax Hc limit. rewrite Hrun_count, Hmax, Hc.
    rewrite andb_false_r. reflexivity.
Qed.

End LineRule.

(** [q2/src/long.py] has 501 lines: one violation in a Local run. *)
Lemma C4_line_count_rule_witness :
  occurrences (TooManyLines ["q2"; "src"; "long.py"] 500)
              (violations sample_local_state) = 1%nat.
Proof.
  assert (Hwf : wf_node (disk sample_world) = true)
    by (vm_compute; reflexivity).
  assert (Hds : iterdir (disk sample_world) sample_root
                = Ok (map (fun e => sample_root ++ [e.1])
            (match resolve sample_disk sample_root with
             | Some (Dir _ es) => es | _ => [] end)))
    by (vm_compute; reflexivity).
  assert (Hin : In (sample_root ++ ["q2"]) (map (fun e => sample_root ++ [e.1])
            (match resolve sample_disk sample_root with
             | Some (Dir _ es) => es | _ => [] end)))
    by (vm_compute; auto).
  assert (Hdir : is_dir (disk sample_world) (sample_root ++ ["q2"]) = true)
    by (vm_compute; reflexivity).
  assert (Hname : Text.startswith (Pth.name (sample_root ++ ["q2"]))
                    (question_prefix default_constraints) = true)
    by (vm_compute; reflexivity).
  assert (Hsrc : exists_ (disk sample_world)
                   (Pth.joinpath (sample_root ++ ["q2"]) "src") = true)
    by (vm_compute; reflexivity).
  assert (Hf : In (sample_root ++ ["q2"; "src"; "long.py"])
                  (glob_ext (disk sample_world)
                     (Pth.joinpath (sample_root ++ ["q2"]) "src")
                     (target_ext default_constraints)))
    by (vm_compute; auto).
  assert (Hopen : open_lines (disk sample_world)
                    (sample_root ++ ["q2"; "src"; "long.py"])
                  = Ok (repeat "pass" 501))
    by (vm_compute; reflexivity).
  assert (Hrel : Pth.relative_to (sample_root ++ ["q2"; "src"; "long.py"])
                   sample_root = Some ["q2"; "src"; "long.py"])
    by (vm_compute; reflexivity).
  pose proof (proj1 (proj2 (proj2
    (C4_line_count_rule default_constraints sample_world sample_root Hwf
       true false
       (get_files_to_check sample_world sample_root true
          (ignored_parts default_constraints)) sample_local_state _ _ _ _ _
       sample_local_run Hds Hin Hdir Hname Hsrc Hf Hopen Hrel)))) as H.
  apply H; vm_compute; reflexivity.
Defined.

(** ** Rules on one candidate *)

Section CandidateRules.

Variables (c : Constraints) (w : World) (root : Path).

Lemma question_dirs_no_candidate_rule v q_dirs :
  (forall rel limit, v <> TooManyLines rel limit) ->
  (forall n, v <> TooManyScripts n) ->
  occurrences v (concat (map (question_dir_emitted c w root) q_dirs)) = 0%nat.
Proof.
  intros Hl Hs. apply occurrences_zero. rewrite In_concat_map.
  intros [d [_ Hv]].
  apply question_dir_emitted_In in Hv as [_ [->|[f [_ Hv]]]].
  - eapply Hs; reflexivity.
  - apply source_file_emitted_In in Hv as (? & ? & -> & _).
    eapply Hl; reflexivity.
Qed.

(** What the candidates other than [p] emit leaves the count of [v] to
    the occurrences of [p] in the list. *)
Lemma occurrences_per_listing v (f : Path -> list violation) files p :
  (forall q, q <> p -> ~ In v (f q)) ->
  occurrences v (concat (map f files))
  = (times_listed p files * occurrences v (f p))%nat.
Proof.
  intros Hother. unfold times_listed.
  induction files as [|q files IH]; [reflexivity|].
  cbn [map concat]. rewrite occurrences_app, IH.
  destruct (path_eq_dec q p) as [->|Hne].
  - rewrite count_occ_cons_eq by reflexivity. lia.
  - rewrite count_occ_cons_neq by assumption.
    rewrite (occurrences_zero _ _ (Hother _ Hne)). lia.
Qed.

Lemma occurrences_singleton v : occurrences v [v] = 1%nat.
Proof. unfold occurrences. rewrite count_occ_cons_eq; reflexivity. Qed.

Lemma asset_emitted_under_root p size rel :
  stat_size (disk w) p = Ok size -> Pth.relative_to p root = Some rel ->
  asset_emitted c w root p
  = if mem (Text.lower (Pth.suffix p)) (asset_exts c)
       && (size >? max_asset_size_bytes c)
    then [AssetTooBig rel] else [].
Proof.
  intros Hs Hr. unfold asset_emitted. rewrite Hs, Hr.
  destruct (mem _ _); reflexivity.
Qed.

Lemma asset_rule_under_root p size rel st :
  stat_size (disk w) p = Ok size -> Pth.relative_to p root = Some rel ->
  exists st1, asset_rule c w root p st = Ok st1.
Proof.
  intros Hs Hr. unfold asset_rule, relative_to_or_raise. rewrite Hs, Hr.
  simpl. destruct (mem _ _); [|eauto]. destruct (_ >? _); eauto.
Qed.

(** An existing candidate below root: the loop body returns. *)
Lemma check_candidate_under_root local is_instructor p rel st :
  exists_ (disk w) p = true -> Pth.relative_to p root = Some rel ->
  exists st1,
    check_candidate c w root local is_instructor p st = Ok st1 /\
    violations st1
    = violations st ++ asset_emitted c w root p
      ++ scope_emitted c root p local is_instructor.
Proof.
  intros Hex Hrel. destruct (exists_stat_size _ _ Hex) as [size Hsize].
  destruct (asset_rule_under_root p size rel st Hsize Hrel) as [s1 Hs1].
  unfold check_candidate. rewrite Hex, Hs1. simpl.
  eexists; split; [reflexivity|].
  rewrite scope_rule_emits, (asset_rule_emits _ _ _ _ _ _ Hs1).
  symmetry; apply app_assoc.
Qed.

(** C5. For an existing candidate [p] of size [size] whose path relative
    to root is [rel]: the loop body returns, and appends the asset
    violation naming [rel] exactly when the lower-cased extension of [p]
    is an asset extension and [size] strictly exceeds
    [max_asset_size_bytes] (5 MiB by default); a run that returns has
    collected that violation once per listing of [p] in that case and
    never otherwise.  A candidate with another extension passes the asset
    rule unchanged. *)
Theorem C5_asset_size_rule local is_instructor p size rel :
  stat_size (disk w) p = Ok size ->
  Pth.relative_to p root = Some rel ->
  let is_asset := mem (Text.lower (Pth.suffix p)) (asset_exts c) in
  let too_big := size >? max_asset_size_bytes c in
  (forall st0, exists st1,
      check_candidate c w root local is_instructor p st0 = Ok st1 /\
      violations st1
      = violations st0
        ++ (if is_asset && too_big then [AssetTooBig rel] else [])
        ++ scope_emitted c root p local is_instructor)
  /\ (forall files st,
        run_rules c w root local is_instructor files = Ok st ->
        occurrences (AssetTooBig rel) (violations st)
        = if is_asset && too_big then times_listed p files else 0%nat)
  /\ (forall q st0,
        mem (Text.lower (Pth.suffix q)) (asset_exts c) = false ->
        asset_rule c w root q st0 = Ok st0)
  /\ max_asset_size_bytes default_constraints = 5 * 1024 * 1024.
Proof.
  intros Hsize Hrel is_asset too_big.
  pose proof (stat_size_exists _ _ _ Hsize) as Hex.
  pose proof (asset_emitted_under_root p size rel Hsize Hrel) as Hemit.
  fold is_asset too_big in Hemit.
  split; [|split; [|split; [|reflexivity]]].
  - intros st0.
    destruct (check_candidate_under_root local is_instructor p rel st0
                Hex Hrel) as [st1 [Hrun Hv]].
    exists st1. split; [exact Hrun|]. rewrite Hv, Hemit. reflexivity.
  - intros files st Hrun.
    destruct (run_rules_emits _ _ _ _ _ _ _ Hrun) as [q_dirs [_ ->]].
    rewrite occurrences_app, question_dirs_no_candidate_rule by discriminate.
    rewrite (occurrences_per_listing _ _ _ p).
    + unfold candidate_emitted. rewrite Hex, occurrences_app, Hemit.
      rewrite (occurrences_zero _ (scope_emitted _ _ _ _ _)).
      * destruct (is_asset && too_big);
          [rewrite occurrences_singleton|]; cbn; lia.
      * intros Hv. apply scope_emitted_In in Hv as (? & ? & _). discriminate.
    + intros q Hne Hv. apply Hne.
      apply candidate_emitted_In in Hv as [_ [Hv|Hv]].
      * apply asset_emitted_In in Hv as (? & ? & [= <-] & Hq & _).
        eapply relative_to_inj; eauto.
      * apply scope_emitted_In in Hv as (? & ? & _). discriminate.
  - intros q st0 Hq. unfold asset_rule. rewrite Hq. reflexivity.
Qed.

End CandidateRules.

(** The oversized [assets/big.PNG] is reported once in a Local run, the
    asset of exactly 5 MiB is not. *)
Lemma C5_asset_size_rule_witness :
  occurrences (AssetTooBig ["assets"; "big.PNG"])
              (violations sample_local_state) = 1%nat
  /\ occurrences (AssetTooBig ["assets"; "ok.png"])
                 (violations sample_local_state) = 0%nat.
Proof.
  assert (Hbig : stat_size (disk sample_world)
                   (sample_root ++ ["assets"; "big.PNG"])
                 = Ok (5 * 1024 * 1024 + 1))
    by (vm_compute; reflexivity).
  assert (Hbig_rel : Pth.relative_to (sample_root ++ ["assets"; "big.PNG"])
                       sample_root = Some ["assets"; "big.PNG"])
    by (vm_compute; reflexivity).
  assert (Hok : stat_size (disk sample_world)
                  (sample_root ++ ["assets"; "ok.png"])
                = Ok (5 * 1024 * 1024))
    by (vm_compute; reflexivity).
  assert (Hok_rel : Pth.relative_to (sample_root ++ ["assets"; "ok.png"])
                      sample_root = Some ["assets"; "ok.png"])
    by (vm_compute; reflexivity).
  pose proof (proj1 (proj2
    (C5_asset_size_rule default_constraints sample_world sample_root
       true false _ _ _ Hbig Hbig_rel))
       (get_files_to_check sample_world sample_root true
          (ignored_parts default_constraints)) sample_local_state sample_local_run) as H1.
  pose proof (proj1 (proj2
    (C5_asset_size_rule default_constraints sample_world sample_root
       true false _ _ _ Hok Hok_rel))
       (get_files_to_check sample_world sample_root true
          (ignored_parts default_constraints)) sample_local_state sample_local_run) as H2.
  split; (etransitivity; [eassumption | vm_compute; reflexivity]).
Defined.

(** ** Modification-scope rule *)

Section ScopeRule.

Variables (c : Constraints) (w : World) (root : Path).

Lemma scope_emitted_under_root p rel local is_instructor :
  Pth.relative_to p root = Some rel ->
  scope_emitted c root p local is_instructor
  = if negb local && negb is_instructor
       && negb (elem "src" rel || elem "assets" rel
                || mem (Pth.name rel) (whitelisted_files c))
    then [ForbiddenModification rel] else [].
Proof.
  intros Hrel. unfold scope_emitted. rewrite Hrel.
  destruct (negb local && negb is_instructor); reflexivity.
Qed.

(** C1.  The rule fires only with the local flag and the instructor
    bypass both off.  There, a candidate file [p], one that is on disk,
    with path [rel] relative to root, gets exactly one
    forbidden-modification violation per listing when [rel] has no
    ["src"] part, no ["assets"] part and a name outside the whitelist,
    and none when it has one of the three; in Local or Instructor-Bypass
    mode a run collects no forbidden-modification violation at all; a
    candidate that is not below root is left alone by the rule. *)
Theorem C1_modification_scope_rule p rel :
  exists_ (disk w) p = true ->
  Pth.relative_to p root = Some rel ->
  let permitted :=
    elem "src" rel || elem "assets" rel
    || mem (Pth.name rel) (whitelisted_files c) in
  let fires local is_instructor :=
    negb local && negb is_instructor && negb permitted in
  (forall local is_instructor st0, exists st1,
      check_candidate c w root local is_instructor p st0 = Ok st1 /\
      violations st1
      = violations st0 ++ asset_emitted c w root p
        ++ (if fires local is_instructor
            then [ForbiddenModification rel] else []))
  /\ (forall local is_instructor files st,
        run_rules c w root local is_instructor files = Ok st ->
        occurrences (ForbiddenModification rel) (violations st)
        = if fires local is_instructor then times_listed p files else 0%nat)
  /\ (forall local is_instructor files st rel',
        run_rules c w root local is_instructor files = Ok st ->
        local = true \/ is_instructor = true ->
        occurrences (ForbiddenModification rel') (violations st) = 0%nat)
  /\ (forall q local is_instructor st0,
        Pth.relative_to q root = None ->
        scope_rule c root q local is_instructor st0 = st0).
Proof.
  intros Hex Hrel permitted fires.
  split; [|split; [|split]].
  - intros local is_instructor st0.
    destruct (check_candidate_under_root c w root local is_instructor p rel
                st0 Hex Hrel) as [st1 [Hrun Hv]].
    exists st1. split; [exact Hrun|].
    rewrite Hv, (scope_emitted_under_root _ _ _ _ Hrel). reflexivity.
  - intros local is_instructor files st Hrun.
    destruct (run_rules_emits _ _ _ _ _ _ _ Hrun) as [q_dirs [_ ->]].
    rewrite occurrences_app, question_dirs_no_candidate_rule by discriminate.
    rewrite (occurrences_per_listing _ _ _ p).
    + unfold candidate_emitted. rewrite Hex, occurrences_app.
      rewrite (occurrences_zero _ (asset_emitted _ _ _ _)).
      * rewrite (scope_emitted_under_root _ _ _ _ Hrel).
        fold permitted. fold (fires local is_instructor).
        destruct (fires local is_instructor);
          [rewrite occurrences_singleton|]; cbn; lia.
      * intros Hv. apply asset_emitted_In in Hv as (? & ? & ? & _).
        discriminate.
    + intros q Hne Hv. apply Hne.
      apply candidate_emitted_In in Hv as [_ [Hv|Hv]].
      * apply asset_emitted_In in Hv as (? & ? & ? & _). discriminate.
      * apply scope_emitted_In in Hv as (? & [= <-] & Hq & _).
        eapply relative_to_inj; eauto.
  - intros local is_instructor files st rel' Hrun Hmode.
    destruct (run_rules_emits _ _ _ _ _ _ _ Hrun) as [q_dirs [_ ->]].
    rewrite occurrences_app, question_dirs_no_candidate_rule by discriminate.
    rewrite Nat.add_0_r. apply occurrences_zero. rewrite In_concat_map.
    intros [q [_ Hv]]. apply candidate_emitted_In in Hv as [_ [Hv|Hv]].
    + apply asset_emitted_In in Hv as (? & ? & ? & _). discriminate.
    + apply scope_emitted_In in Hv as (? & _ & _ & Hl & Hi & _).
      destruct Hmode; congruence.
  - intros q local is_instructor st0 Hq. unfold scope_rule. rewrite Hq.
    destruct (negb local && negb is_instructor); reflexivity.
Qed.

(** C10. A candidate that is not on disk is skipped by the loop body,
    and a run that returns has collected no violation naming it: none for
    its size, none for its place, none for its lines. *)
Theorem C10_missing_candidate_skipped p :
  exists_ (disk w) p = false ->
  (forall local is_instructor st0,
      check_candidate c w root local is_instructor p st0 = Ok st0)
  /\ (forall local is_instructor files st rel v,
        run_rules c w root local is_instructor files = Ok st ->
        Pth.relative_to p root = Some rel ->
        In v (violations st) -> named_file v <> Some rel).
Proof.
  intros Hex. split.
  - intros local is_instructor st0. unfold check_candidate.
    rewrite Hex. reflexivity.
  - intros local is_instructor files st rel v Hrun Hrel Hv Hnamed.
    assert (Hsame : forall q rel', Pth.relative_to q root = Some rel' ->
                      named_file v = Some rel' -> exists_ (disk w) q = true ->
                      False).
    { intros q rel' Hq Hn Hexq. rewrite Hn in Hnamed. injection Hnamed as ->.
      rewrite (relative_to_inj _ _ _ _ Hq Hrel) in Hexq. congruence. }
    destruct (run_rules_emits _ _ _ _ _ _ _ Hrun) as [q_dirs [_ Hvs]].
    rewrite Hvs, in_app_iff, !In_concat_map in Hv.
    destruct Hv as [[q [_ Hv]]|[d [_ Hv]]].
    + apply candidate_emitted_In in Hv as [Hexq [Hv|Hv]].
      * apply asset_emitted_In in Hv as (rel' & ? & -> & Hq & _).
        eapply Hsame; eauto.
      * apply scope_emitted_In in Hv as (rel' & -> & Hq & _).
        eapply Hsame; eauto.
    + apply question_dir_emitted_In in Hv as [_ [->|[f [_ Hv]]]];
        [discriminate|].
      apply source_file_emitted_In in Hv as (rel' & ls & -> & Hf & Hopen & _).
      eapply Hsame; eauto using open_lines_exists.
Qed.

End ScopeRule.

Lemma sample_ci_run :
  run_rules default_constraints ci_world sample_root false false
    (get_files_to_check ci_world sample_root false
       (ignored_parts default_constraints))
  = Ok sample_ci_state.
Proof. vm_compute. reflexivity. Qed.

(** [notes.txt], listed by the diff and on disk, is a forbidden
    modification in Student-CI mode. *)
Lemma C1_modification_scope_rule_witness :
  occurrences (ForbiddenModification ["notes.txt"])
              (violations sample_ci_state) = 1%nat.
Proof.
  assert (Hex : exists_ (disk ci_world) (sample_root ++ ["notes.txt"]) = true)
    by (vm_compute; reflexivity).
  assert (Hrel : Pth.relative_to (sample_root ++ ["notes.txt"]) sample_root
                 = Some ["notes.txt"])
    by (vm_compute; reflexivity).
  pose proof (proj1 (proj2
    (C1_modification_scope_rule default_constraints ci_world sample_root
       _ _ Hex Hrel)) false false
       (get_files_to_check ci_world sample_root false
          (ignored_parts default_constraints)) sample_ci_state sample_ci_run) as H.
  etransitivity; [exact H | vm_compute; reflexivity].
Defined.

(** The deleted [old.txt] of the diff is skipped, and named by no
    violation of the Student-CI run. *)
Lemma C10_missing_candidate_skipped_witness :
  check_candidate default_constraints ci_world sample_root false false
                  (sample_root ++ ["old.txt"]) initial_state
  = Ok initial_state
  /\ Forall (fun v => named_file v <> Some ["old.txt"])
            (violations sample_ci_state).
Proof.
  assert (Hex : exists_ (disk ci_world) (sample_root ++ ["old.txt"]) = false)
    by (vm_compute; reflexivity).
  assert (Hrel : Pth.relative_to (sample_root ++ ["old.txt"]) sample_root
                 = Some ["old.txt"])
    by (vm_compute; reflexivity).
  pose proof (C10_missing_candidate_skipped default_constraints ci_world
                sample_root (sample_root ++ ["old.txt"]) Hex) as [Hskip Hnone].
  split; [apply Hskip|].
  apply List.Forall_forall. intros v Hv.
  exact (Hnone false false
           (get_files_to_check ci_world sample_root false
              (ignored_parts default_constraints))
           sample_ci_state ["old.txt"] v sample_ci_run Hrel Hv).
Defined.

(** ** Reporter *)

(** A run whose rules return prints the panel and then hands the
    violations to the console: with no violation it prints the success
    line and exits with status 0; with violations whose messages all
    render it prints the table, one row per violation in order, and exits
    with status 1; when a message does not render, nothing follows the
    panel and the run ends in [MarkupError]. *)
Lemma main_after_rules w local path st :
  evaluate default_constraints w (resolve_path path) local
           (is_instructor_of w) = Ok st ->
  let panel :=
    Panel ("[bold blue]Assignment Governance Check[/bold blue]" +:+ LF
           +:+ "Mode: " +:+ mode_label local (is_instructor_of w)) in
  main w local path
  = match violations st with
    | [] =>
        ([panel;
          Line (LF +:+ "[bold green]âœ“[/bold green] All checks passed successfully!")],
         Ok 0)
    | _ :: _ =>
        if forallb (console_renders w) (map render (violations st))
        then ([panel;
               Table "Violations Found"
                     (map (fun v => ("Constraint Error", render v))
                          (violations st))],
              Ok 1)
        else ([panel], Raise MarkupError)
    end.
Proof.
  intros Hrun panel. unfold main. rewrite Hrun.
  destruct (violations st) as [|v vs] eqn:Hvs; [reflexivity|].
  cbn [report]. destruct (forallb _ _); reflexivity.
Qed.

(** C6. A Student run on a submission whose changed file is named
    red].txt and lies in a directory named notes[ : the run collects one
    violation, and its message holds a closing tag for red while only
    bold is open, so [console.print(table)] raises [MarkupError].  Only
    the panel is printed: the violation list is not empty and no table
    is shown. *)
Lemma C6_markup_failure :
  evaluate default_constraints markup_world (resolve_path "/repo") false
           (is_instructor_of markup_world)
  = Ok {| violations := [ForbiddenModification ["notes["; "red].txt"]];
          total_py_files := 0;
          total_lines := 0 |}
  /\ render (ForbiddenModification ["notes["; "red].txt"])
     = "Forbidden modification: [bold]notes[/red].txt[/bold]."
  /\ console_renders markup_world
       "Forbidden modification: [bold]notes[/red].txt[/bold]." = false
  /\ main markup_world false "/repo"
     = ([Panel ("[bold blue]Assignment Governance Check[/bold blue]" +:+ LF
                +:+ "Mode: Student (CI/CD)")],
        Raise MarkupError).
Proof. repeat split; vm_compute; reflexivity. Qed.

(** ** Recursive enumeration *)

Section Enumeration.

(** Every path of [rglob] is strictly below its directory. *)
Lemma rglob_node_below n : forall base p,
  In p (rglob_node base n) -> exists rel, rel <> [] /\ p = base ++ rel.
Proof.
  induction n as [sz ls|sz es IH] using node_induction; intros base p;
    simpl; [intros []|].
  rewrite in_app_iff, in_map_iff, in_flat_map.
  intros [[[n ch] [<- _]]|[[n ch] [Hin Hp]]].
  - exists [n]. split; [discriminate | reflexivity].
  - rewrite List.Forall_forall in IH.
    destruct (IH _ Hin _ _ Hp) as [rel [_ ->]].
    exists (n :: rel). split; [discriminate|].
    rewrite <- app_assoc. reflexivity.
Qed.

(** Every node reached by names from a directory is in its [rglob]. *)
Lemma rglob_node_complete rel : forall n base x,
  rel <> [] -> descend n rel = Some x -> In (base ++ rel) (rglob_node base n).
Proof.
  induction rel as [|s rest IH]; intros n base x Hne;
    [contradiction|]. simpl.
  destruct n as [sz ls|sz es]; [discriminate|].
  destruct (lookup_entry s es) as [child|] eqn:E; [|discriminate].
  apply lookup_entry_In in E. intros Hd. simpl.
  rewrite in_app_iff, in_map_iff, in_flat_map.
  destruct rest as [|s' rest'].
  - left. exists (s, child). split; [reflexivity | assumption].
  - right. exists (s, child). split; [assumption|].
    replace (base ++ s :: s' :: rest') with ((base ++ [s]) ++ s' :: rest')
      by (rewrite <- app_assoc; reflexivity).
    eapply IH; [discriminate | exact Hd].
Qed.

Lemma rglob_node_NoDup n : forall base,
  wf_node n = true -> List.NoDup (rglob_node base n).
Proof.
  induction n as [sz ls|sz es IH] using node_induction; intros base Hwf;
    simpl; [constructor|].
  destruct (wf_node_Dir _ _ Hwf) as [Hnd%NoDup_ListNoDup Hall].
  rewrite List.Forall_forall in IH.
  apply List.NoDup_app.
  - rewrite <- (map_map fst (fun n => base ++ [n])).
    apply NoDup_map_snoc, Hnd.
  - clear Hwf. induction es as [|[n ch] es IHes]; simpl; [constructor|].
    inversion Hnd as [|? ? Hn Hnd']; subst.
    apply List.NoDup_app.
    + apply (IH (n, ch)); [left; reflexivity|].
      apply (Hall n ch). left; reflexivity.
    + apply IHes; [|assumption|].
      * intros x Hx. apply IH. right; assumption.
      * intros name child Hin. apply Hall. right; assumption.
    + intros p Hp Hq. apply Hn.
      apply rglob_node_below in Hp as [rel [Hrel ->]].
      apply in_flat_map in Hq as [[n' ch'] [Hin Hq]].
      apply rglob_node_below in Hq as [rel' [_ Heq]].
      rewrite <- !app_assoc in Heq. apply app_inv_head in Heq.
      injection Heq as -> _. apply in_map_iff. exists (n', ch'). auto.
  - intros p Hp Hq.
    apply in_map_iff in Hp as [[n ch] [<- _]].
    apply in_flat_map in Hq as [[n' ch'] [_ Hq]].
    apply rglob_node_below in Hq as [rel [Hrel Heq]].
    rewrite <- app_assoc in Heq. apply app_inv_head in Heq.
    injection Heq as _ Heq. destruct rel; [contradiction | discriminate].
Qed.

Lemma rglob_below fs root p :
  In p (rglob fs root) -> exists rel, rel <> [] /\ p = root ++ rel.
Proof.
  unfold rglob. destruct (resolve fs root); [apply rglob_node_below | intros []].
Qed.

Lemma rglob_NoDup fs root : wf_node fs = true -> List.NoDup (rglob fs root).
Proof.
  intros Hwf. unfold rglob. destruct (resolve fs root) eqn:E; [|constructor].
  apply rglob_node_NoDup. eapply resolve_wf; eauto.
Qed.

Lemma should_exclude_app p q ignored :
  should_exclude (p ++ q) ignored
  = should_exclude p ignored || should_exclude q ignored.
Proof. apply existsb_app. Qed.

Lemma should_exclude_false p ignored :
  should_exclude p ignored = false ->
  forall part, In part p ->
    mem part ignored = false /\ Text.startswith part "." = false.
Proof.
  unfold should_exclude. intros H part Hin.
  destruct (mem part ignored || Text.startswith part ".") eqn:E.
  - assert (existsb (fun part => mem part ignored || Text.startswith part ".")
                    p = true)
      by (apply existsb_exists; eauto).
    congruence.
  - apply orb_false_elim in E. exact E.
Qed.

Lemma not_excluded_plain p ignored :
  should_exclude p ignored = false -> plain p.
Proof.
  intros H. apply List.Forall_forall. intros s Hs.
  apply (should_exclude_false _ _ H s Hs).
Qed.

Lemma plain_tail_parts p : plain p -> plain (Pth.tail_parts p).
Proof.
  unfold Pth.tail_parts. destruct (Pth.has_anchor p); [|auto].
  destruct p; simpl; [auto|]. intros H. inversion H; assumption.
Qed.

(** A path that passes the filter and names something below an absolute
    root is listed by [rglob]. *)
Lemma rglob_complete fs root rel ignored :
  Pth.has_anchor root = true -> rel <> [] ->
  should_exclude (root ++ rel) ignored = false ->
  exists_ fs (root ++ rel) = true ->
  In (root ++ rel) (rglob fs root).
Proof.
  intros Habs Hne Hex. unfold exists_, rglob, resolve.
  pose proof (not_excluded_plain _ _ Hex) as Hp.
  assert (Hroot : plain root) by (apply Forall_app in Hp; apply Hp).
  rewrite (walk_plain _ _ _ (plain_tail_parts _ Hp)).
  rewrite (walk_plain _ _ _ (plain_tail_parts _ Hroot)).
  rewrite tail_parts_app, descend_app by assumption.
  destruct (descend fs (Pth.tail_parts root)) as [n|]; [|discriminate].
  destruct (descend n rel) as [x|] eqn:E; [|discriminate].
  intros _. eapply rglob_node_complete; eauto.
Qed.

Lemma all_files_In w root ignored p :
  In p (all_files w root ignored) <->
  In p (rglob (disk w) root) /\ is_file (disk w) p = true
  /\ should_exclude p ignored = false.
Proof.
  unfold all_files. rewrite filter_In, andb_true_iff, negb_true_iff. tauto.
Qed.

Lemma get_files_not_excluded w root is_local ignored p :
  In p (get_files_to_check w root is_local ignored) ->
  should_exclude p ignored = false.
Proof.
  unfold get_files_to_check.
  assert (Hall : In p (all_files w root ignored) ->
                 should_exclude p ignored = false)
    by (rewrite all_files_In; tauto).
  destruct is_local; [exact Hall|].
  destruct (check_output w (diff_cmd root)) as [out|e]; [|exact Hall].
  destruct (negb (String.eqb (Text.strip out) EmptyString)); [|exact Hall].
  rewrite filter_In, negb_true_iff. tauto.
Qed.

End Enumeration.

(** ** Candidates and the path filter *)

Section Candidates.

Lemma last_In {A} (l : list A) x : last l = Some x -> In x l.
Proof.
  induction l as [|a l IH]; [discriminate|].
  destruct l as [|b l]; [intros [= ->]; left; reflexivity|].
  intros H. right. apply IH. exact H.
Qed.

Lemma tail_parts_In p s : In s (Pth.tail_parts p) -> In s p.
Proof.
  unfold Pth.tail_parts. destruct (Pth.has_anchor p); [|auto].
  destruct p; simpl; auto.
Qed.

(** The name of a path is one of its parts, or empty. *)
Lemma name_In p : Pth.name p = EmptyString \/ In (Pth.name p) p.
Proof.
  unfold Pth.name. destruct (last (Pth.tail_parts p)) as [x|] eqn:E; simpl.
  - right. apply tail_parts_In, last_In, E.
  - left; reflexivity.
Qed.

Lemma name_not_hidden p ignored :
  should_exclude p ignored = false ->
  Text.startswith (Pth.name p) "." = false.
Proof.
  intros H. destruct (name_In p) as [->|Hin]; [reflexivity|].
  apply (should_exclude_false _ _ H _ Hin).
Qed.

(** C9. Every path [get_files_to_check] returns, in Local and in CI
    mode, passes the filter on all its parts, the parts of root included:
    no part is in the ignored set, no part begins with ["."].  So its
    name does not begin with ["."], nor does the name of its path
    relative to root, which therefore is never the whitelisted
    [".gitignore"]; and when root itself has an ignored or hidden part,
    the Local list is empty. *)
Theorem C9_candidates_pass_filter w root is_local ignored p :
  In p (get_files_to_check w root is_local ignored) ->
  should_exclude p ignored = false
  /\ (forall part, In part p ->
        mem part ignored = false /\ Text.startswith part "." = false)
  /\ Text.startswith (Pth.name p) "." = false
  /\ (forall rel, Pth.relative_to p root = Some rel ->
        Text.startswith (Pth.name rel) "." = false
        /\ Pth.name rel <> ".gitignore")
  /\ (is_local = true -> should_exclude root ignored = false)
  /\ (should_exclude root ignored = true ->
      get_files_to_check w root true ignored = [])
  /\ mem ".gitignore" (whitelisted_files default_constraints) = true.
Proof.
  intros Hin. pose proof (get_files_not_excluded _ _ _ _ _ Hin) as Hex.
  assert (Hroot : forall q, In q (get_files_to_check w root true ignored) ->
                    should_exclude root ignored = false).
  { intros q Hq. pose proof (get_files_not_excluded _ _ _ _ _ Hq) as Hqx.
    simpl in Hq. apply all_files_In in Hq as [Hq _].
    apply rglob_below in Hq as [rel [_ ->]].
    rewrite should_exclude_app in Hqx. apply orb_false_elim in Hqx.
    apply Hqx. }
  repeat split.
  - exact Hex.
  - apply (should_exclude_false _ _ Hex part H).
  - apply (should_exclude_false _ _ Hex part H).
  - eapply name_not_hidden; eauto.
  - apply relative_to_Some in H as [-> _].
    rewrite should_exclude_app in Hex. apply orb_false_elim in Hex.
    eapply name_not_hidden. apply Hex.
  - apply relative_to_Some in H as [-> _].
    rewrite should_exclude_app in Hex. apply orb_false_elim in Hex.
    destruct Hex as [_ Hrel]. apply name_not_hidden in Hrel.
    intros Heq. rewrite Heq in Hrel. discriminate Hrel.
  - intros ->. eapply Hroot; eauto.
  - intros Hx.
    destruct (get_files_to_check w root true ignored) as [|q l] eqn:E;
      [reflexivity|].
    rewrite (Hroot q) in Hx; [discriminate | left; reflexivity].
Qed.

(** [README.md] of the sample submission is a Local candidate and passes
    the filter. *)
Lemma C9_candidates_pass_filter_witness :
  should_exclude (sample_root ++ ["README.md"])
                 (ignored_parts default_constraints) = false.
Proof.
  assert (Hin : In (sample_root ++ ["README.md"])
                   (get_files_to_check sample_world sample_root true
                      (ignored_parts default_constraints)))
    by (vm_compute; auto 10).
  exact (proj1 (C9_candidates_pass_filter sample_world sample_root true
                  (ignored_parts default_constraints)
                  (sample_root ++ ["README.md"]) Hin)).
Defined.

(** One more name after a path: the entry of that name in the directory
    the path resolves to. *)
Lemma walk_snoc s : wf_name s = true -> forall a anc cur,
  walk anc cur (a ++ [s])
  = match walk anc cur a with
    | Some (Dir _ es) => lookup_entry s es
    | _ => None
    end.
Proof.
  intros Hs. unfold wf_name in Hs.
  apply andb_prop in Hs as [[[_ Hdot]%andb_prop Hup]%andb_prop _].
  apply negb_true_iff in Hdot, Hup.
  induction a as [|x a IH]; intros anc cur; simpl.
  - destruct cur as [sz ls|sz es]; [reflexivity|].
    rewrite Hup, Hdot. destruct (lookup_entry s es); reflexivity.
  - destruct cur as [sz ls|sz es]; [reflexivity|].
    destruct (String.eqb x "..").
    { destruct anc as [|up anc']; apply IH. }
    destruct (String.eqb x "."); [apply IH|].
    destruct (lookup_entry x es); [apply IH | reflexivity].
Qed.

Lemma lookup_entry_NoDup es name child :
  NoDup (map fst es) -> In (name, child) es ->
  lookup_entry name es = Some child.
Proof.
  induction es as [|[n ch] es IH]; simpl; [intros _ []|].
  rewrite NoDup_cons. intros [Hn Hnd] [[= -> ->]|Hin].
  - rewrite String.eqb_refl. reflexivity.
  - destruct (String.eqb_spec name n) as [->|_]; [|auto].
    exfalso. apply Hn. apply list_elem_of_In.
    apply (in_map fst) in Hin. exact Hin.
Qed.

(** An entry of the directory at root is what root joined with its name
    resolves to. *)
Lemma resolve_entry fs root sz es name child :
  wf_node fs = true -> Pth.has_anchor root = true ->
  resolve fs root = Some (Dir sz es) -> In (name, child) es ->
  resolve fs (root ++ [name]) = Some child.
Proof.
  intros Hwf Habs Hroot Hin.
  pose proof (resolve_wf _ _ _ Hwf Hroot) as Hdir.
  destruct (wf_node_Dir _ _ Hdir) as [Hnd Hall].
  destruct (Hall _ _ Hin) as [Hname _].
  unfold resolve in *. rewrite tail_parts_app by assumption.
  rewrite (walk_snoc _ Hname), Hroot.
  apply lookup_entry_NoDup; assumption.
Qed.

Lemma filter_flat_map {A B} (keep : B -> bool) (f : A -> list B) l :
  List.filter keep (flat_map f l)
  = flat_map (fun x => List.filter keep (f x)) l.
Proof.
  induction l as [|x l IH]; simpl; [reflexivity|].
  rewrite List.filter_app, IH. reflexivity.
Qed.

Lemma flat_map_ext_In {A B} (f g : A -> list B) l :
  (forall x, In x l -> f x = g x) -> flat_map f l = flat_map g l.
Proof.
  induction l as [|x l IH]; intros H; simpl; [reflexivity|].
  rewrite (H x (or_introl eq_refl)), IH; auto using in_cons.
Qed.

(** C8, as the code has it.  In Local mode [get_files_to_check] returns
    exactly the regular files strictly below root that pass the filter,
    each once on a well-formed tree, in the order of [rglob]: first the
    files among the entries of root that pass the filter, in the order
    the directory lists them, then the listing of each entry of root in
    turn, in that same order.  A root that is no directory lists
    nothing. *)
Theorem C8_local_enumeration w root ignored :
  Pth.has_anchor root = true ->
  let listed := get_files_to_check w root true ignored in
  let keep p := is_file (disk w) p && negb (should_exclude p ignored) in
  (forall p,
      In p listed <->
      (exists rel, rel <> [] /\ p = root ++ rel)
      /\ is_file (disk w) p = true /\ should_exclude p ignored = false)
  /\ (wf_node (disk w) = true -> List.NoDup listed)
  /\ listed = List.filter keep (rglob (disk w) root)
  /\ (wf_node (disk w) = true ->
      forall sz es, resolve (disk w) root = Some (Dir sz es) ->
        listed
        = List.filter keep (map (fun e => root ++ [e.1]) es)
          ++ flat_map (fun e => get_files_to_check w (root ++ [e.1]) true
                                  ignored) es)
  /\ (is_dir (disk w) root = false -> listed = []).
Proof.
  intros Habs listed keep. split; [|split; [|split; [|split]]].
  - intros p. unfold listed. simpl. rewrite all_files_In. split.
    + intros [Hp [Hf Hx]]. split; [eapply rglob_below; exact Hp | auto].
    + intros [[rel [Hne ->]] [Hf Hx]]. split; [|auto].
      eapply rglob_complete; eauto using is_file_exists.
  - intros Hwf. apply List.NoDup_filter, rglob_NoDup, Hwf.
  - reflexivity.
  - intros Hwf sz es Hroot. unfold listed, get_files_to_check, all_files.
    fold keep. unfold rglob at 1. rewrite Hroot.
    cbn [rglob_node]. rewrite List.filter_app, filter_flat_map. f_equal.
    apply flat_map_ext_In. intros [name child] Hin.
    unfold rglob. cbn [fst].
    rewrite (resolve_entry _ _ _ _ _ _ Hwf Habs Hroot Hin). reflexivity.
  - intros Hdir. unfold listed, get_files_to_check, all_files, rglob.
    unfold is_dir in Hdir.
    destruct (resolve (disk w) root) as [[sz ls|sz es]|];
      [reflexivity | discriminate | reflexivity].
Qed.

End Candidates.

(** The Local listing of the sample submission has each of its regular
    files outside [.git] once: the two files of [/repo] first, then the
    listings of its six entries in the order of the directory. *)
Lemma C8_local_enumeration_witness :
  List.NoDup (get_files_to_check sample_world sample_root true
                (ignored_parts default_constraints))
  /\ get_files_to_check sample_world sample_root true
       (ignored_parts default_constraints)
     = [sample_root ++ ["README.md"]; sample_root ++ ["notes.txt"]]
       ++ flat_map (fun name =>
                      get_files_to_check sample_world (sample_root ++ [name])
                        true (ignored_parts default_constraints))
                   ["q2"; "README.md"; "q1"; "notes.txt"; "assets"; ".git"].
Proof.
  assert (Habs : Pth.has_anchor sample_root = true)
    by (vm_compute; reflexivity).
  assert (Hwf : wf_node (disk sample_world) = true)
    by (vm_compute; reflexivity).
  pose proof (C8_local_enumeration sample_world sample_root
                (ignored_parts default_constraints) Habs)
    as [_ [Hnodup [_ [Horder _]]]].
  split; [exact (Hnodup Hwf)|].
  assert (Hroot : resolve (disk sample_world) sample_root
                  = Some (Dir 4096
                            (match resolve sample_disk sample_root with
                             | Some (Dir _ es) => es
                             | _ => []
                             end)))
    by (vm_compute; reflexivity).
  etransitivity; [exact (Horder Hwf _ _ Hroot) | vm_compute; reflexivity].
Defined.

(** The claim as stated fails: the Local listing of the sample
    submission follows the order of the directories, [q2] before
    [README.md] before [q1], and is not in ascending order of path. *)
Lemma C8_counterexample :
  get_files_to_check sample_world sample_root true
    (ignored_parts default_constraints)
  = [sample_root ++ ["README.md"]; sample_root ++ ["notes.txt"];
     sample_root ++ ["q2"; "src"; "long.py"];
     sample_root ++ ["q2"; "src"; "a.py"];
     sample_root ++ ["q2"; "src"; "limit.py"];
     sample_root ++ ["q2"; "src"; "data.txt"];
     sample_root ++ ["q1"; "src"; "f.py"];
     sample_root ++ ["q1"; "src"; "e.py"];
     sample_root ++ ["q1"; "src"; "d.py"];
     sample_root ++ ["q1"; "src"; "c.py"];
     sample_root ++ ["q1"; "src"; "b.py"];
     sample_root ++ ["q1"; "src"; "a.py"];
     sample_root ++ ["assets"; "big.PNG"];
     sample_root ++ ["assets"; "ok.png"]]
  /\ ascending (get_files_to_check sample_world sample_root true
                  (ignored_parts default_constraints)) = false.
Proof. split; vm_compute; reflexivity. Qed.

(** ** Change detection *)

Section ChangeDetection.

Lemma linebreak_isspace c : Text.is_linebreak c = true -> Text.isspace c = true.
Proof.
  destruct c as [[] [] [] [] [] [] [] []]; vm_compute; congruence.
Qed.

Lemma has_text_app a b : has_text (a +:+ b) = has_text a || has_text b.
Proof.
  induction a as [|c a IH]; simpl; [reflexivity|].
  rewrite IH, orb_assoc. reflexivity.
Qed.

Lemma lstrip_cases s :
  Text.lstrip s = EmptyString
  \/ exists c t, Text.lstrip s = String c t /\ Text.isspace c = false.
Proof.
  induction s as [|c s IH]; simpl; [left; reflexivity|].
  destruct (Text.isspace c) eqn:E; [exact IH | right; eauto].
Qed.

Lemma lstrip_has_text s :
  has_text s = true ->
  exists c t, Text.lstrip s = String c t /\ Text.isspace c = false.
Proof.
  induction s as [|c s IH]; simpl; [discriminate|].
  destruct (Text.isspace c) eqn:E; simpl; [exact IH | eauto].
Qed.

Lemma rstrip_head c t :
  Text.isspace c = false -> exists r, Text.rstrip (String c t) = String c r.
Proof.
  intros E. simpl. rewrite E. destruct (Text.rstrip t); eauto.
Qed.

(** A non-empty stripped string begins with a character that is not
    white space. *)
Lemma strip_head s :
  Text.strip s <> EmptyString ->
  exists c r, Text.strip s = String c r /\ Text.isspace c = false.
Proof.
  unfold Text.strip. intros Hne.
  destruct (lstrip_cases s) as [E|[c [t [E Hc]]]]; rewrite E in *.
  - contradiction.
  - destruct (rstrip_head c t Hc) as [r Hr]. eauto.
Qed.

Lemma strip_has_text s : has_text s = true -> Text.strip s <> EmptyString.
Proof.
  intros H. unfold Text.strip.
  destruct (lstrip_has_text s H) as [c [t [-> Hc]]].
  destruct (rstrip_head c t Hc) as [r ->]. discriminate.
Qed.

(** At a line boundary the line read so far is the next line. *)
Lemma splitlines_aux_break cur c s :
  Text.is_linebreak c = true ->
  exists rest, Text.splitlines_aux cur (String c s) = cur :: rest.
Proof.
  intros H. simpl. rewrite H.
  repeat match goal with
         | |- context [match ?x with _ => _ end] => destruct x
         end; eauto.
Qed.

Lemma splitlines_aux_has_text s : forall cur,
  has_text cur = true ->
  exists l rest, Text.splitlines_aux cur s = l :: rest /\ has_text l = true.
Proof.
  induction s as [|c s IH]; intros cur Hcur.
  - simpl. destruct cur; [discriminate | eauto].
  - destruct (Text.is_linebreak c) eqn:E.
    + destruct (splitlines_aux_break cur c s E) as [rest ->]. eauto.
    + simpl. rewrite E. apply IH. rewrite has_text_app, Hcur. reflexivity.
Qed.

(** A string that begins with a character that is not white space has
    a first line with text. *)
Lemma splitlines_head c r :
  Text.isspace c = false ->
  exists l rest, Text.splitlines (String c r) = l :: rest /\ has_text l = true.
Proof.
  intros Hc. unfold Text.splitlines.
  destruct (Text.is_linebreak c) eqn:Hlb;
    [apply linebreak_isspace in Hlb; congruence|].
  assert (E : Text.splitlines_aux EmptyString (String c r)
              = Text.splitlines_aux (String c EmptyString) r)
    by (simpl; rewrite Hlb; reflexivity).
  rewrite E. apply splitlines_aux_has_text. simpl. rewrite Hc. reflexivity.
Qed.

(** The diff lists no path exactly when its output is blank. *)
Lemma changed_paths_nil root out :
  changed_paths root out = [] <-> Text.strip out = EmptyString.
Proof.
  unfold changed_paths. split.
  - intros H. destruct (String.eqb_spec (Text.strip out) EmptyString) as [E|Hne];
      [exact E|]. exfalso.
    destruct (strip_head out Hne) as [c [r [E Hc]]]. rewrite E in H.
    destruct (splitlines_head c r Hc) as [l [rest [Hl Ht]]].
    rewrite Hl in H. cbn [List.filter] in H.
    destruct (String.eqb_spec (Text.strip l) EmptyString) as [El|_];
      [apply (strip_has_text l Ht El) | discriminate H].
  - intros ->. reflexivity.
Qed.

(** C2. In CI mode: when the subprocess raises, or exits with a status
    other than zero, or succeeds and lists no path (its output is blank),
    [get_files_to_check] returns what it returns in Local mode, the
    files below root that pass the filter; when it succeeds and lists
    paths, it returns those paths resolved against root that pass the
    filter.  The function is total: no case raises. *)
Theorem C2_change_detection_fallback w root ignored :
  let cmd := diff_cmd root in
  let local_listing := get_files_to_check w root true ignored in
  let ci_listing := get_files_to_check w root false ignored in
  (forall e, run_process w cmd = Raise e -> ci_listing = local_listing)
  /\ (forall c, run_process w cmd = Ok c -> returncode c <> 0 ->
        ci_listing = local_listing)
  /\ (forall c, run_process w cmd = Ok c -> returncode c = 0 ->
        changed_paths root (output c) = [] -> ci_listing = local_listing)
  /\ (forall c, run_process w cmd = Ok c -> returncode c = 0 ->
        changed_paths root (output c) <> [] ->
        ci_listing
        = List.filter (fun p => negb (should_exclude p ignored))
                      (changed_paths root (output c)))
  /\ (forall out, changed_paths root out = [] <-> Text.strip out = EmptyString)
  /\ local_listing
     = List.filter (fun p => is_file (disk w) p
                             && negb (should_exclude p ignored))
                   (rglob (disk w) root).
Proof.
  intros cmd local_listing ci_listing.
  unfold ci_listing, local_listing, get_files_to_check, check_output.
  fold cmd. repeat split.
  - intros e ->. reflexivity.
  - intros c -> Hrc. unfold bind.
    destruct (Z.eqb_spec (returncode c) 0); [contradiction | reflexivity].
  - intros c -> Hrc Hnil%changed_paths_nil. unfold bind.
    rewrite Hrc. cbn [Z.eqb]. rewrite Hnil. reflexivity.
  - intros c -> Hrc Hne. unfold bind. rewrite Hrc. cbn [Z.eqb].
    destruct (String.eqb_spec (Text.strip (output c)) EmptyString) as [E|_];
      [|reflexivity].
    apply (changed_paths_nil root) in E. contradiction.
  - apply changed_paths_nil.
  - apply changed_paths_nil.
Qed.

End ChangeDetection.

(** With [git] not installed, with [git diff] failing, and with a diff
    that lists [old.txt] and [notes.txt]. *)
Lemma C2_change_detection_fallback_witness :
  get_files_to_check sample_world sample_root false
    (ignored_parts default_constraints)
  = get_files_to_check sample_world sample_root true
      (ignored_parts default_constraints)
  /\ get_files_to_check failing_git_world sample_root false
       (ignored_parts default_constraints)
     = get_files_to_check failing_git_world sample_root true
         (ignored_parts default_constraints)
  /\ get_files_to_check ci_world sample_root false
       (ignored_parts default_constraints)
     = [sample_root ++ ["old.txt"]; sample_root ++ ["notes.txt"]].
Proof.
  pose proof (C2_change_detection_fallback sample_world sample_root
                (ignored_parts default_constraints)) as [H1 _].
  pose proof (C2_change_detection_fallback failing_git_world sample_root
                (ignored_parts default_constraints)) as [_ [H2 _]].
  pose proof (C2_change_detection_fallback ci_world sample_root
                (ignored_parts default_constraints)) as [_ [_ [_ [H3 _]]]].
  split; [|split].
  - apply (H1 FileNotFoundError). reflexivity.
  - apply (H2 {| returncode := 128;
                 output := "fatal: ambiguous argument 'origin/main...HEAD'" |});
      [reflexivity | discriminate].
  - etransitivity;
      [apply (H3 {| returncode := 0;
                    output := "old.txt" +:+ LF +:+ "notes.txt" +:+ LF |});
       [reflexivity | reflexivity | vm_compute; discriminate]
      | vm_compute; reflexivity].
Defined.

(** ** Runs that raise *)









(** * Further properties *)

(** ** The path filter *)

(** X1. [should_exclude] holds exactly for the paths with a part in the
    ignored set or a part that begins with ["."]; so the empty path
    passes, an excluded directory excludes every path below it, and a
    path that passes has only ancestors that pass. *)
Theorem should_exclude_inherited path ignored :
  (should_exclude path ignored = true <->
   exists part, In part path
                /\ (part ∈ ignored \/ Text.startswith part "." = true))
  /\ should_exclude [] ignored = false
  /\ (forall below,
        should_exclude path ignored = true ->
        should_exclude (path ++ below) ignored = true)
  /\ (forall below,
        should_exclude (path ++ below) ignored = false ->
        should_exclude path ignored = false
        /\ should_exclude below ignored = false).
Proof.
  repeat split.
  - unfold should_exclude. rewrite existsb_exists.
    intros [part [Hin H]]. exists part. split; [assumption|].
    apply orb_prop in H as [H|H]; [left|right; assumption].
    apply bool_decide_eq_true in H. exact H.
  - intros [part [Hin H]]. apply existsb_exists. exists part.
    split; [assumption|]. apply orb_true_iff.
    destruct H as [H|H]; [left|right; assumption].
    apply bool_decide_eq_true. exact H.
  - intros below H. rewrite should_exclude_app, H. reflexivity.
  - rewrite should_exclude_app in H. apply orb_false_elim in H. apply H.
  - rewrite should_exclude_app in H. apply orb_false_elim in H. apply H.
Qed.

(** A checkout below [.venv] is excluded with everything in it. *)
Lemma should_exclude_inherited_witness :
  should_exclude (["/"; "home"; ".venv"] ++ ["lib"; "site.py"])
                 (ignored_parts default_constraints) = true.
Proof.
  apply (proj1 (proj2 (proj2
           (should_exclude_inherited ["/"; "home"; ".venv"]
              (ignored_parts default_constraints))))).
  vm_compute. reflexivity.
Defined.

(** ** Modes *)

Section Modes.

Variables (c : Constraints) (w : World) (root : Path).

(** Whether a loop body returns does not depend on the state it starts
    from. *)
Lemma for_each_returns_alike {A} (body body' : A -> State -> result State) l :
  (forall x st st1, In x l -> body x st = Ok st1 ->
                    forall st', exists st2, body' x st' = Ok st2) ->
  forall st st1, for_each body l st = Ok st1 ->
                 forall st', exists st2, for_each body' l st' = Ok st2.
Proof.
  induction l as [|x l IH]; intros Hbody st st1 H st'; simpl in *; [eauto|].
  destruct (body x st) as [s|] eqn:E; simpl in H; [|discriminate].
  destruct (Hbody x st s (or_introl eq_refl) E st') as [s' ->]. simpl.
  eapply IH; eauto using in_cons.
Qed.

(** Every element of a loop that returns has a state from which its
    body returns. *)
Lemma for_each_returns_each {A} (body : A -> State -> result State) l :
  forall st st1, for_each body l st = Ok st1 ->
  forall x, In x l -> exists s s1, body x s = Ok s1.
Proof.
  induction l as [|y l IH]; intros st st1 H x Hx; [destruct Hx|].
  simpl in H. destruct (body y st) as [s|] eqn:E; simpl in H; [|discriminate].
  destruct Hx as [->|Hx]; eauto.
Qed.

Lemma asset_rule_returns_alike p st st1 :
  asset_rule c w root p st = Ok st1 ->
  forall st', exists st2, asset_rule c w root p st' = Ok st2.
Proof.
  unfold asset_rule, relative_to_or_raise. intros H st'.
  destruct (mem _ _); [|eauto].
  destruct (stat_size (disk w) p) as [size|]; simpl in *; [|discriminate].
  destruct (size >? _); [|eauto].
  destruct (Pth.relative_to p root); simpl in *; [eauto | discriminate].
Qed.

Lemma check_candidate_returns_alike local is_instructor p st st1 :
  check_candidate c w root local is_instructor p st = Ok st1 ->
  forall local' is_instructor' st',
  exists st2, check_candidate c w root local' is_instructor' p st' = Ok st2.
Proof.
  unfold check_candidate. intros H local' is_instructor' st'.
  destruct (exists_ (disk w) p); simpl in *; [|eauto].
  destruct (asset_rule c w root p st) as [s|] eqn:E; simpl in H;
    [|discriminate].
  destruct (asset_rule_returns_alike _ _ _ E st') as [s' ->]. simpl. eauto.
Qed.

Lemma check_source_file_returns_alike f st st1 :
  check_source_file c w root f st = Ok st1 ->
  forall st', exists st2, check_source_file c w root f st' = Ok st2.
Proof.
  unfold check_source_file, relative_to_or_raise. intros H st'.
  destruct (open_lines (disk w) f) as [ls|]; simpl in *; [|discriminate].
  destruct (_ >? _); [|eauto].
  destruct (Pth.relative_to f root); simpl in *; [eauto | discriminate].
Qed.

Lemma check_question_dir_returns_alike d st st1 :
  check_question_dir c w root d st = Ok st1 ->
  forall st', exists st2, check_question_dir c w root d st' = Ok st2.
Proof.
  unfold check_question_dir. intros H st'.
  destruct (exists_ (disk w) (Pth.joinpath d "src")); [|eauto].
  eapply for_each_returns_alike; [|exact H].
  intros f s s1 _. apply check_source_file_returns_alike.
Qed.

Lemma run_rules_returns_alike local is_instructor files st :
  run_rules c w root local is_instructor files = Ok st ->
  forall local' is_instructor',
  exists st', run_rules c w root local' is_instructor' files = Ok st'.
Proof.
  unfold run_rules. intros H local' is_instructor'.
  destruct (for_each _ files initial_state) as [s1|] eqn:E1; simpl in H;
    [|discriminate].
  destruct (question_dirs c w root) as [q_dirs|]; simpl in *; [|discriminate].
  destruct (for_each_returns_alike
              (check_candidate c w root local is_instructor)
              (check_candidate c w root local' is_instructor') files
              (fun p s s' _ Hp =>
                 check_candidate_returns_alike _ _ _ _ _ Hp local'
                   is_instructor')
              _ _ E1 initial_state) as [s1' ->].
  simpl. eapply for_each_returns_alike; [|exact H].
  intros d s s' _. apply check_question_dir_returns_alike.
Qed.

Lemma filter_concat_map {A} (keep : violation -> bool)
    (f : A -> list violation) l :
  List.filter keep (concat (map f l))
  = concat (map (fun x => List.filter keep (f x)) l).
Proof.
  induction l as [|x l IH]; simpl; [reflexivity|].
  rewrite List.filter_app, IH. reflexivity.
Qed.

Lemma filter_all {A} (keep : A -> bool) l :
  (forall x, In x l -> keep x = true) -> List.filter keep l = l.
Proof.
  induction l as [|x l IH]; intros H; simpl; [reflexivity|].
  rewrite (H x (or_introl eq_refl)), IH; auto using in_cons.
Qed.

Lemma candidate_emitted_other_mode local is_instructor p :
  negb local && negb is_instructor = false ->
  candidate_emitted c w root local is_instructor p
  = List.filter (fun v => negb (is_forbidden v))
                (candidate_emitted c w root false false p).
Proof.
  intros Hmode. unfold candidate_emitted.
  destruct (exists_ (disk w) p); [|reflexivity].
  rewrite List.filter_app. f_equal.
  - symmetry. apply filter_all. intros v Hv.
    apply asset_emitted_In in Hv as (? & ? & -> & _). reflexivity.
  - unfold scope_emitted.
    destruct local, is_instructor; simpl in Hmode; try discriminate Hmode;
      cbn [negb andb];
      (destruct (Pth.relative_to p root) as [rel|]; [|reflexivity]);
      destruct (elem "src" rel || elem "assets" rel
                || mem (Pth.name rel) (whitelisted_files c)); reflexivity.
Qed.

(** X2. The mode changes nothing but the forbidden-modification
    violations: a run in any mode returns exactly when the Student-CI run
    over the same candidates returns, and it collects the violations of
    that run, in the same order, without the forbidden modifications
    when the mode is Local or Instructor-Bypass. *)
Theorem mode_changes_scope_only local is_instructor files :
  ((exists st, run_rules c w root local is_instructor files = Ok st)
   <-> (exists st_student, run_rules c w root false false files = Ok st_student))
  /\ (forall st st_student,
        run_rules c w root local is_instructor files = Ok st ->
        run_rules c w root false false files = Ok st_student ->
        violations st
        = if negb local && negb is_instructor then violations st_student
          else List.filter (fun v => negb (is_forbidden v))
                           (violations st_student)).
Proof.
  split.
  - split; intros [s Hs].
    + exact (run_rules_returns_alike _ _ _ _ Hs false false).
    + exact (run_rules_returns_alike _ _ _ _ Hs local is_instructor).
  - intros st st' Hrun Hst'.
    destruct (run_rules_emits _ _ _ _ _ _ _ Hrun) as [q_dirs [Hq ->]].
    destruct (run_rules_emits _ _ _ _ _ _ _ Hst') as [q_dirs' [Hq' ->]].
    rewrite Hq in Hq'. injection Hq' as <-.
    destruct (negb local && negb is_instructor) eqn:Hmode.
    + apply andb_prop in Hmode as [Hl Hi].
      apply negb_true_iff in Hl, Hi. subst. reflexivity.
    + rewrite List.filter_app, !filter_concat_map. f_equal.
      * f_equal. apply map_ext. intros p.
        apply candidate_emitted_other_mode, Hmode.
      * f_equal. apply map_ext. intros d. symmetry. apply filter_all.
        intros v Hv.
        apply question_dir_emitted_In in Hv as [_ [->|[f [_ Hv]]]];
          [reflexivity|].
        apply source_file_emitted_In in Hv as (? & ? & -> & _). reflexivity.
Qed.

End Modes.

(** The sample submission: its Student run over the Local listing
    returns, as its Local run does, and the Local run holds the
    violations of that run without the forbidden modifications. *)
Lemma mode_changes_scope_only_witness :
  exists st_student,
    run_rules default_constraints sample_world sample_root false false
      (get_files_to_check sample_world sample_root true
         (ignored_parts default_constraints)) = Ok st_student
    /\ violations sample_local_state
       = List.filter (fun v => negb (is_forbidden v)) (violations st_student).
Proof.
  destruct (mode_changes_scope_only default_constraints sample_world
              sample_root true false
              (get_files_to_check sample_world sample_root true
                 (ignored_parts default_constraints)))
    as [[Hreturns _] Hsame].
  destruct (Hreturns (ex_intro _ sample_local_state sample_local_run))
    as [st_student Hst].
  exists st_student. split; [exact Hst|].
  exact (Hsame sample_local_state st_student sample_local_run Hst).
Defined.

(** ** Violations and broken rules *)

Section Causes.

Variables (c : Constraints) (w : World) (root : Path).

Lemma question_dir_emitted_scripts n d :
  In (TooManyScripts n) (question_dir_emitted c w root d) ->
  n = Pth.name d
  /\ exists_ (disk w) (Pth.joinpath d "src") = true
  /\ Z.of_nat (length (glob_ext (disk w) (Pth.joinpath d "src")
                                (target_ext c)))
     > max_src_files c.
Proof.
  unfold question_dir_emitted.
  destruct (exists_ (disk w) (Pth.joinpath d "src")); [|intros []].
  rewrite in_app_iff. intros [H|H].
  - destruct (_ >? _) eqn:E; [|destruct H].
    destruct H as [[= <-]|[]]. repeat split. lia.
  - apply In_concat_map in H as [f [_ H]].
    apply source_file_emitted_In in H as (? & ? & ? & _). discriminate.
Qed.

(** X3. No violation without a cause.  In a run that returns, an asset
    violation names a listed candidate on disk with an asset extension
    and a size above the limit; a forbidden modification is collected in
    Student-CI mode only, for a listed candidate on disk outside ["src"]
    and ["assets"] and not whitelisted; a "too many scripts" violation
    names a question directory whose [src] lists more scripts than
    allowed; a line violation carries the configured limit and names a
    script of a question directory with more lines than that. *)
Theorem every_violation_has_a_cause local is_instructor files st v :
  run_rules c w root local is_instructor files = Ok st ->
  In v (violations st) ->
  match v with
  | AssetTooBig rel =>
      exists p size,
        In p files /\ Pth.relative_to p root = Some rel
        /\ stat_size (disk w) p = Ok size /\ size > max_asset_size_bytes c
        /\ mem (Text.lower (Pth.suffix p)) (asset_exts c) = true
  | ForbiddenModification rel =>
      local = false /\ is_instructor = false
      /\ exists p,
           In p files /\ exists_ (disk w) p = true
           /\ Pth.relative_to p root = Some rel
           /\ elem "src" rel = false /\ elem "assets" rel = false
           /\ mem (Pth.name rel) (whitelisted_files c) = false
  | TooManyScripts q_name =>
      exists q_dirs d,
        question_dirs c w root = Ok q_dirs /\ In d q_dirs
        /\ Pth.name d = q_name
        /\ Z.of_nat (length (glob_ext (disk w) (Pth.joinpath d "src")
                                      (target_ext c)))
           > max_src_files c
  | TooManyLines rel limit =>
      limit = max_line_count c
      /\ exists q_dirs d f ls,
           question_dirs c w root = Ok q_dirs /\ In d q_dirs
           /\ In f (glob_ext (disk w) (Pth.joinpath d "src") (target_ext c))
           /\ Pth.relative_to f root = Some rel
           /\ open_lines (disk w) f = Ok ls
           /\ Z.of_nat (length ls) > max_line_count c
  end.
Proof.
  intros Hrun Hv.
  destruct (run_rules_emits _ _ _ _ _ _ _ Hrun) as [q_dirs [Hq Hvs]].
  rewrite Hvs, in_app_iff, !In_concat_map in Hv.
  destruct Hv as [[p [Hp Hv]]|[d [Hd Hv]]].
  - apply candidate_emitted_In in Hv as [Hex [Hv|Hv]].
    + apply asset_emitted_In in Hv as (rel & size & -> & ? & ? & ? & ?).
      exists p, size. repeat split; assumption.
    + apply scope_emitted_In in Hv as (rel & -> & ? & ? & ? & ? & ? & ?).
      split; [assumption|]. split; [assumption|].
      exists p. repeat split; assumption.
  - destruct v as [rel|rel|n|rel limit].
    + apply question_dir_emitted_In in Hv as [_ [Hv|[f [_ Hv]]]];
        [discriminate|].
      apply source_file_emitted_In in Hv as (? & ? & ? & _). discriminate.
    + apply question_dir_emitted_In in Hv as [_ [Hv|[f [_ Hv]]]];
        [discriminate|].
      apply source_file_emitted_In in Hv as (? & ? & ? & _). discriminate.
    + apply question_dir_emitted_scripts in Hv as (-> & _ & ?).
      exists q_dirs, d. repeat split; assumption.
    + apply question_dir_emitted_In in Hv as [_ [Hv|[f [Hf Hv]]]];
        [discriminate|].
      apply source_file_emitted_In in Hv
        as (rel' & ls & [= -> ->] & ? & ? & ?).
      split; [reflexivity|]. exists q_dirs, d, f, ls.
      repeat split; assumption.
Qed.

End Causes.

(** The line violation of the sample Local run carries the limit 500. *)
Lemma every_violation_has_a_cause_witness :
  500 = max_line_count default_constraints
  /\ exists q_dirs d f ls,
       question_dirs default_constraints sample_world sample_root = Ok q_dirs
       /\ In d q_dirs
       /\ In f (glob_ext (disk sample_world) (Pth.joinpath d "src")
                         (target_ext default_constraints))
       /\ Pth.relative_to f sample_root = Some ["q2"; "src"; "long.py"]
       /\ open_lines (disk sample_world) f = Ok ls
       /\ Z.of_nat (length ls) > max_line_count default_constraints.
Proof.
  assert (Hv : In (TooManyLines ["q2"; "src"; "long.py"] 500)
                  (violations sample_local_state))
    by (vm_compute; auto 10).
  exact (every_violation_has_a_cause default_constraints sample_world
           sample_root true false _ sample_local_state
           (TooManyLines ["q2"; "src"; "long.py"] 500) sample_local_run Hv).
Defined.

Section CleanRuns.

Variables (c : Constraints) (w : World) (root : Path).

Lemma concat_map_nil {A} (f : A -> list violation) l :
  concat (map f l) = [] <-> forall x, In x l -> f x = [].
Proof.
  induction l as [|y l IH]; simpl.
  - split; [intros _ x [] | reflexivity].
  - split.
    + intros [Hy Hl]%app_eq_nil x [<-|Hx]; [exact Hy|]. apply IH; assumption.
    + intros H. rewrite (H y (or_introl eq_refl)). apply IH.
      intros x Hx. apply H. right; assumption.
Qed.

Lemma not_gtb_leb a b : (a >? b) = false -> (a <=? b) = true.
Proof. intros H. apply Z.leb_le. rewrite Z.gtb_ltb in H. lia. Qed.

Lemma leb_not_gtb a b : (a <=? b) = true -> (a >? b) = false.
Proof. intros H. apply Z.leb_le in H. rewrite Z.gtb_ltb. lia. Qed.

(** A candidate whose body returns and emits nothing breaks no rule. *)
Lemma candidate_clean local is_instructor p s s1 :
  check_candidate c w root local is_instructor p s = Ok s1 ->
  candidate_emitted c w root local is_instructor p = [] ->
  (negb (mem (Text.lower (Pth.suffix p)) (asset_exts c))
   || match stat_size (disk w) p with
      | Ok size => size <=? max_asset_size_bytes c
      | Raise _ => true
      end) = true
  /\ (local || is_instructor
      || (negb (exists_ (disk w) p)
          || match Pth.relative_to p root with
             | Some rel =>
                 elem "src" rel || elem "assets" rel
                 || mem (Pth.name rel) (whitelisted_files c)
             | None => true
             end)) = true.
Proof.
  unfold check_candidate, candidate_emitted.
  destruct (exists_ (disk w) p) eqn:Hex; simpl.
  - destruct (asset_rule c w root p s) as [s'|] eqn:Ha; simpl; [|discriminate].
    intros _ [Hasset Hscope]%app_eq_nil. split.
    + unfold asset_rule, asset_emitted, relative_to_or_raise in *.
      destruct (mem _ _); [|reflexivity]. simpl.
      destruct (stat_size (disk w) p) as [size|]; [|reflexivity].
      simpl in Ha. destruct (size >? _) eqn:Hs; [|apply not_gtb_leb, Hs].
      destruct (Pth.relative_to p root); simpl in *; discriminate.
    + unfold scope_emitted in Hscope.
      destruct local; [reflexivity|]. destruct is_instructor; [reflexivity|].
      simpl in *. destruct (Pth.relative_to p root) as [rel|]; [|reflexivity].
      destruct (elem "src" rel || elem "assets" rel
                || mem (Pth.name rel) (whitelisted_files c));
        [reflexivity | discriminate].
  - intros _ _. split.
    + unfold stat_size, exists_ in *.
      destruct (resolve (disk w) p); [discriminate|]. apply orb_true_r.
    + rewrite !orb_true_r. reflexivity.
Qed.

(** A candidate that breaks no rule emits nothing. *)
Lemma clean_candidate local is_instructor p :
  (negb (mem (Text.lower (Pth.suffix p)) (asset_exts c))
   || match stat_size (disk w) p with
      | Ok size => size <=? max_asset_size_bytes c
      | Raise _ => true
      end) = true ->
  (local || is_instructor
   || (negb (exists_ (disk w) p)
       || match Pth.relative_to p root with
          | Some rel =>
              elem "src" rel || elem "assets" rel
              || mem (Pth.name rel) (whitelisted_files c)
          | None => true
          end)) = true ->
  candidate_emitted c w root local is_instructor p = [].
Proof.
  intros Hasset Hscope.
  destruct (candidate_emitted c w root local is_instructor p) as [|v l] eqn:E;
    [reflexivity|]. exfalso.
  assert (Hv : In v (candidate_emitted c w root local is_instructor p))
    by (rewrite E; left; reflexivity).
  apply candidate_emitted_In in Hv as [Hex [Hv|Hv]].
  - apply asset_emitted_In in Hv as (rel & size & _ & _ & Hs & Hgt & Hm).
    rewrite Hm, Hs in Hasset. simpl in Hasset. apply Z.leb_le in Hasset. lia.
  - apply scope_emitted_In in Hv
      as (rel & _ & Hrel & -> & -> & H1 & H2 & H3).
    rewrite Hex, Hrel, H1, H2, H3 in Hscope. discriminate.
Qed.

Lemma source_file_clean f s s1 :
  check_source_file c w root f s = Ok s1 ->
  source_file_emitted c w root f = [] ->
  match open_lines (disk w) f with
  | Ok ls => Z.of_nat (length ls) <=? max_line_count c
  | Raise _ => true
  end = true.
Proof.
  unfold check_source_file, source_file_emitted, relative_to_or_raise.
  destruct (open_lines (disk w) f) as [ls|]; simpl; [|reflexivity].
  destruct (_ >? _) eqn:Hs; [|intros; apply not_gtb_leb, Hs].
  destruct (Pth.relative_to f root); simpl; discriminate.
Qed.

Lemma clean_source_file f :
  match open_lines (disk w) f with
  | Ok ls => Z.of_nat (length ls) <=? max_line_count c
  | Raise _ => true
  end = true ->
  source_file_emitted c w root f = [].
Proof.
  unfold source_file_emitted.
  destruct (open_lines (disk w) f) as [ls|]; [|reflexivity].
  intros H%leb_not_gtb. rewrite H.
  destruct (Pth.relative_to f root); reflexivity.
Qed.

(** X4. The violation list of a run that returns is empty, and the exit
    status zero, exactly when no rule is broken: no listed asset on disk
    is above the size limit; the mode is Local or Instructor-Bypass, or
    every listed file on disk and below root is in ["src"], in
    ["assets"] or whitelisted; and every question directory with a [src]
    has no more scripts than allowed, each with no more lines than
    allowed. *)
Theorem no_violation_iff_rules_hold local is_instructor files st :
  run_rules c w root local is_instructor files = Ok st ->
  (violations st = [] <->
   assets_within_limit c w files = true
   /\ (local || is_instructor || modifications_permitted c w root files) = true
   /\ questions_within_limits c w root = true)
  /\ (snd (report (violations st)) = 0 <-> violations st = []).
Proof.
  intros Hrun. split;
    [|destruct (violations st); simpl; split; congruence].
  destruct (run_rules_emits _ _ _ _ _ _ _ Hrun) as [q_dirs [Hq ->]].
  unfold run_rules in Hrun.
  destruct (for_each _ files initial_state) as [s1|] eqn:E1; simpl in Hrun;
    [|discriminate].
  rewrite Hq in Hrun. simpl in Hrun.
  unfold assets_within_limit, modifications_permitted, questions_within_limits.
  rewrite Hq. split.
  - intros [Hcand Hdirs]%app_eq_nil.
    rewrite concat_map_nil in Hcand, Hdirs.
    assert (Heach : forall p, In p files ->
              exists s s', check_candidate c w root local is_instructor p s
                           = Ok s')
      by (eapply for_each_returns_each; eauto).
    split; [|split].
    + apply forallb_forall. intros p Hp.
      destruct (Heach p Hp) as [s [s' Hs]].
      apply (candidate_clean _ _ _ _ _ Hs (Hcand p Hp)).
    + destruct local; [reflexivity|]. destruct is_instructor; [reflexivity|].
      apply forallb_forall. intros p Hp.
      destruct (Heach p Hp) as [s [s' Hs]].
      apply (candidate_clean _ _ _ _ _ Hs (Hcand p Hp)).
    + apply forallb_forall. intros d Hd.
      destruct (for_each_returns_each _ _ _ _ Hrun d Hd) as [s [s' Hs]].
      specialize (Hdirs d Hd).
      unfold check_question_dir in Hs. unfold question_dir_emitted in Hdirs.
      cbv zeta.
      destruct (exists_ (disk w) (Pth.joinpath d "src")); [|reflexivity].
      apply app_eq_nil in Hdirs as [Hcount Hfiles]. simpl.
      destruct (_ >? _) eqn:Hn in Hcount; [discriminate|].
      rewrite (not_gtb_leb _ _ Hn). simpl.
      rewrite concat_map_nil in Hfiles.
      apply forallb_forall. intros f Hf.
      destruct (for_each_returns_each _ _ _ _ Hs f Hf) as [t [t' Ht]].
      apply (source_file_clean _ _ _ Ht (Hfiles f Hf)).
  - intros (Hassets & Hscope & Hdirs).
    rewrite forallb_forall in Hassets, Hdirs.
    assert (concat (map (candidate_emitted c w root local is_instructor)
                        files) = []) as ->.
    { apply concat_map_nil. intros p Hp. apply clean_candidate.
      - apply Hassets, Hp.
      - destruct local; [reflexivity|]. destruct is_instructor; [reflexivity|].
        simpl in Hscope. rewrite forallb_forall in Hscope.
        apply Hscope, Hp. }
    simpl. apply concat_map_nil. intros d Hd.
    specialize (Hdirs d Hd). cbv zeta in Hdirs.
    unfold question_dir_emitted.
    destruct (exists_ (disk w) (Pth.joinpath d "src")); [|reflexivity].
    simpl in Hdirs. apply andb_prop in Hdirs as [Hn Hfiles].
    rewrite (leb_not_gtb _ _ Hn). simpl.
    apply concat_map_nil. intros f Hf. apply clean_source_file.
    rewrite forallb_forall in Hfiles. apply Hfiles, Hf.
Qed.

End CleanRuns.

Lemma clean_run :
  run_rules default_constraints clean_world sample_root false true
    (get_files_to_check clean_world sample_root false
       (ignored_parts default_constraints))
  = Ok clean_state.
Proof. vm_compute. reflexivity. Qed.

(** The clean submission breaks no rule: its run collects nothing. *)
Lemma no_violation_iff_rules_hold_witness : violations clean_state = [].
Proof.
  apply (proj2 (proj1
    (no_violation_iff_rules_hold default_constraints clean_world sample_root
       false true
       (get_files_to_check clean_world sample_root false
          (ignored_parts default_constraints))
       clean_state clean_run))).
  repeat split; vm_compute; reflexivity.
Defined.

(** ** The order of the question directories *)

Section Order.

Lemma string_compare_Lt_Gt a b :
  String.compare a b = Lt -> String.compare b a = Gt.
Proof.
  intros H. rewrite String.compare_antisym, H. reflexivity.
Qed.

Lemma path_compare_Lt_Gt p : forall q,
  Pth.compare p q = Lt -> Pth.compare q p = Gt.
Proof.
  induction p as [|a p IH]; intros [|b q]; simpl; try discriminate;
    [reflexivity|].
  destruct (String.compare a b) eqn:E.
  - apply String.compare_eq_iff in E. subst b.
    assert (String.compare a a = Eq) as ->.
    { pose proof (String.compare_antisym a a) as H.
      destruct (String.compare a a); [reflexivity | discriminate..]. }
    apply IH.
  - rewrite (string_compare_Lt_Gt _ _ E). reflexivity.
  - discriminate.
Qed.

(** [<] on paths is asymmetric. *)
Lemma ltb_asym p q : Pth.ltb p q = true -> Pth.ltb q p = false.
Proof.
  unfold Pth.ltb. destruct (Pth.compare p q) eqn:E; try discriminate.
  rewrite (path_compare_Lt_Gt _ _ E). reflexivity.
Qed.

Lemma ascending_cons x l :
  ascending (x :: l)
  = match l with
    | [] => true
    | y :: _ => negb (Pth.ltb y x) && ascending l
    end.
Proof. destruct l; reflexivity. Qed.

Lemma insert_sorted_ascending x l :
  ascending l = true -> ascending (insert_sorted x l) = true.
Proof.
  induction l as [|y l IH]; intros Hl; [reflexivity|].
  simpl insert_sorted. destruct (Pth.ltb y x) eqn:Hyx.
  - rewrite ascending_cons in Hl. rewrite ascending_cons.
    destruct l as [|z l].
    + simpl. rewrite (ltb_asym _ _ Hyx). reflexivity.
    + apply andb_prop in Hl as [Hzy Hl]. specialize (IH Hl).
      simpl insert_sorted in *. destruct (Pth.ltb z x).
      * rewrite Hzy, IH. reflexivity.
      * rewrite (ltb_asym _ _ Hyx), IH. reflexivity.
  - rewrite ascending_cons, Hyx, Hl. reflexivity.
Qed.

Lemma sorted_ascending l : ascending (sorted l) = true.
Proof.
  induction l as [|x l IH]; [reflexivity|].
  simpl. apply insert_sorted_ascending, IH.
Qed.

(** X5. The question directories are visited in ascending order of path,
    whatever the order in which the operating system lists root: the
    list is ascending, it holds exactly the entries of root that are
    directories with a name that starts with the question prefix, and
    each of them once on a well-formed tree. *)
Theorem question_dirs_in_order c w root q_dirs :
  question_dirs c w root = Ok q_dirs ->
  ascending q_dirs = true
  /\ (forall d,
        In d q_dirs <->
        exists ds,
          iterdir (disk w) root = Ok ds /\ In d ds
          /\ is_dir (disk w) d = true
          /\ Text.startswith (Pth.name d) (question_prefix c) = true)
  /\ (wf_node (disk w) = true -> List.NoDup q_dirs).
Proof.
  intros Hq. split; [|split].
  - unfold question_dirs in Hq.
    destruct (iterdir (disk w) root); simpl in Hq; [|discriminate].
    injection Hq as <-. apply sorted_ascending.
  - intros d. apply question_dirs_In, Hq.
  - intros Hwf. eapply question_dirs_NoDup; eauto.
Qed.

End Order.

(** The sample disk lists [q2] before [q1]; the run visits [q1] first. *)
Lemma question_dirs_in_order_witness :
  ascending [sample_root ++ ["q1"]; sample_root ++ ["q2"]] = true.
Proof.
  assert (Hq : question_dirs default_constraints sample_world sample_root
               = Ok [sample_root ++ ["q1"]; sample_root ++ ["q2"]])
    by (vm_compute; reflexivity).
  exact (proj1 (question_dirs_in_order default_constraints sample_world
                  sample_root _ Hq)).
Defined.

(** ** Candidates and root *)

Section BelowRoot.

Lemma contains_app ch a b :
  contains ch (a +:+ b) = contains ch a || contains ch b.
Proof.
  induction a as [|d a IH]; simpl; [reflexivity|].
  rewrite IH, orb_assoc. reflexivity.
Qed.

(** The pieces [str.split] returns hold no separator. *)
Lemma split_aux_no_sep sep s : forall cur x,
  contains sep cur = false -> In x (Text.split_aux sep cur s) ->
  contains sep x = false.
Proof.
  induction s as [|ch s IH]; intros cur x Hcur; simpl.
  - intros [<-|[]]. exact Hcur.
  - destruct (Ascii.eqb ch sep) eqn:E.
    + intros [<-|Hx]; [exact Hcur|]. eapply IH; [|exact Hx]. reflexivity.
    + apply IH. rewrite contains_app, Hcur. simpl.
      rewrite Ascii.eqb_sym, E. reflexivity.
Qed.

Lemma segments_In s x :
  In x (Pth.segments s) ->
  contains "/" x = false /\ x <> EmptyString /\ x <> ".".
Proof.
  unfold Pth.segments, Text.split. rewrite filter_In.
  intros [Hx [H1 H2]%andb_prop]. split; [|split].
  - eapply split_aux_no_sep; [|exact Hx]. reflexivity.
  - intros ->. discriminate.
  - intros ->. discriminate.
Qed.

Lemma no_slash_not_anchor x : contains "/" x = false -> Pth.is_anchor x = false.
Proof.
  unfold Pth.is_anchor. intros H.
  destruct (String.eqb_spec x "/") as [->|_]; [discriminate|].
  destruct (String.eqb_spec x "//") as [->|_]; [discriminate|]. reflexivity.
Qed.

Lemma segments_no_anchor s : Pth.has_anchor (Pth.segments s) = false.
Proof.
  destruct (Pth.segments s) as [|x l] eqn:E; [reflexivity|]. simpl.
  apply no_slash_not_anchor.
  apply (segments_In s). rewrite E. left; reflexivity.
Qed.

(** A relative path string joined to root lies below root. *)
Lemma joinpath_relative root s :
  Text.startswith s "/" = false ->
  Pth.joinpath root s = root ++ Pth.segments s
  /\ Pth.relative_to (Pth.joinpath root s) root = Some (Pth.segments s).
Proof.
  intros H. unfold Pth.joinpath. rewrite H. split; [reflexivity|].
  apply relative_to_app, segments_no_anchor.
Qed.

Lemma wf_name_no_slash s : wf_name s = true -> contains "/" s = false.
Proof.
  unfold wf_name. intros [_ H]%andb_prop. apply negb_true_iff in H. exact H.
Qed.

(** On a well-formed tree the paths of [rglob] extend their directory by
    entry names. *)
Lemma rglob_node_names n : forall base p,
  wf_node n = true -> In p (rglob_node base n) ->
  exists rel, p = base ++ rel /\ Pth.has_anchor rel = false.
Proof.
  induction n as [sz ls|sz es IH] using node_induction; intros base p Hwf;
    simpl; [intros []|].
  destruct (wf_node_Dir _ _ Hwf) as [_ Hall].
  rewrite in_app_iff, in_map_iff, in_flat_map.
  intros [[[n ch] [<- Hin]]|[[n ch] [Hin Hp]]].
  - exists [n]. split; [reflexivity|]. simpl.
    apply no_slash_not_anchor, wf_name_no_slash. apply (Hall _ _ Hin).
  - rewrite List.Forall_forall in IH.
    destruct (IH _ Hin (base ++ [n]) p) as [rel [-> _]];
      [apply (Hall _ _ Hin) | exact Hp |].
    exists (n :: rel). split; [rewrite <- app_assoc; reflexivity|]. simpl.
    apply no_slash_not_anchor, wf_name_no_slash. apply (Hall _ _ Hin).
Qed.

Lemma all_files_below_root w root ignored p :
  wf_node (disk w) = true -> In p (all_files w root ignored) ->
  exists rel, Pth.relative_to p root = Some rel.
Proof.
  intros Hwf [Hp _]%all_files_In. unfold rglob in Hp.
  destruct (resolve (disk w) root) as [n|] eqn:E; [|destruct Hp].
  apply rglob_node_names in Hp as [rel [-> Ha]];
    [|eapply resolve_wf; eauto].
  exists rel. apply relative_to_app, Ha.
Qed.

Lemma filter_none {A} (keep : A -> bool) l :
  (forall x, In x l -> keep x = false) -> List.filter keep l = [].
Proof.
  induction l as [|x l IH]; intros H; simpl; [reflexivity|].
  rewrite (H x (or_introl eq_refl)). apply IH. auto using in_cons.
Qed.

(** With a well-formed tree and a diff of relative paths, every listed
    path extends root. *)
Lemma listing_below_root w root ignored is_local p :
  wf_node (disk w) = true ->
  diff_is_relative w root = true ->
  In p (get_files_to_check w root is_local ignored) ->
  exists rel, Pth.relative_to p root = Some rel.
Proof.
  intros Hwf Hdiff. unfold get_files_to_check, diff_is_relative in *.
  destruct is_local; [apply all_files_below_root, Hwf|].
  destruct (check_output w (diff_cmd root)) as [out|e];
    [|apply all_files_below_root, Hwf].
  destruct (negb (String.eqb (Text.strip out) EmptyString));
    [|apply all_files_below_root, Hwf].
  rewrite filter_In, in_map_iff.
  intros [[line [<- Hline]] _]. apply filter_In in Hline as [Hline _].
  rewrite forallb_forall in Hdiff. apply Hdiff in Hline.
  apply negb_true_iff in Hline.
  eexists. apply joinpath_relative, Hline.
Qed.

Lemma listing_candidates_below_root w root ignored is_local :
  wf_node (disk w) = true ->
  diff_is_relative w root = true ->
  candidates_below_root w root
    (get_files_to_check w root is_local ignored) = true.
Proof.
  intros Hwf Hdiff. unfold candidates_below_root.
  apply forallb_forall. intros p Hp.
  destruct (listing_below_root _ _ _ _ _ Hwf Hdiff Hp) as [rel ->].
  rewrite bool_decide_eq_true_2 by eauto. apply orb_true_r.
Qed.

(** X6. When the tree is well formed and every non-blank line of the
    diff is a relative path, every candidate of either mode has a path
    relative to root, and is root followed by that path: [relative_to]
    never raises on a candidate, in the asset message or in the scope
    rule. *)
Theorem candidates_lie_below_root w root ignored is_local :
  wf_node (disk w) = true ->
  diff_is_relative w root = true ->
  (forall p, In p (get_files_to_check w root is_local ignored) ->
             exists rel, Pth.relative_to p root = Some rel
                         /\ p = root ++ rel)
  /\ candidates_below_root w root
       (get_files_to_check w root is_local ignored) = true.
Proof.
  intros Hwf Hdiff. split.
  - intros p Hp.
    destruct (listing_below_root _ _ _ _ _ Hwf Hdiff Hp) as [rel Hrel].
    exists rel. split; [exact Hrel|]. apply relative_to_Some in Hrel.
    apply Hrel.
  - apply listing_candidates_below_root; assumption.
Qed.

(** X7. When root itself has an ignored or hidden part and every
    non-blank line of the diff is a relative path, the candidate list is
    empty in either mode: the asset and scope rules run on no file. *)
Theorem excluded_root_lists_nothing w root ignored is_local :
  should_exclude root ignored = true ->
  diff_is_relative w root = true ->
  get_files_to_check w root is_local ignored = [].
Proof.
  intros Hroot Hdiff.
  assert (Hall : all_files w root ignored = []).
  { unfold all_files. apply filter_none. intros p Hp.
    apply rglob_below in Hp as [rel [_ ->]].
    rewrite should_exclude_app, Hroot. apply andb_false_r. }
  unfold get_files_to_check, diff_is_relative in *.
  destruct is_local; [exact Hall|].
  destruct (check_output w (diff_cmd root)) as [out|e]; [|exact Hall].
  destruct (negb (String.eqb (Text.strip out) EmptyString)); [|exact Hall].
  apply filter_none. intros p Hp.
  apply in_map_iff in Hp as [line [<- Hline]].
  apply filter_In in Hline as [Hline _].
  rewrite forallb_forall in Hdiff. apply Hdiff in Hline.
  apply negb_true_iff in Hline.
  destruct (joinpath_relative root (Text.strip line) Hline) as [-> _].
  rewrite should_exclude_app, Hroot. reflexivity.
Qed.

End BelowRoot.

(** A diff of relative paths: both candidates of the Student run lie
    below root. *)
Lemma candidates_lie_below_root_witness :
  candidates_below_root ci_world sample_root
    (get_files_to_check ci_world sample_root false
       (ignored_parts default_constraints)) = true.
Proof.
  assert (Hwf : wf_node (disk ci_world) = true) by (vm_compute; reflexivity).
  assert (Hdiff : diff_is_relative ci_world sample_root = true)
    by (vm_compute; reflexivity).
  exact (proj2 (candidates_lie_below_root ci_world sample_root
                  (ignored_parts default_constraints) false Hwf Hdiff)).
Defined.

(** A checkout below [.ci]: the diff lists two files, the run checks
    none. *)
Lemma excluded_root_lists_nothing_witness :
  get_files_to_check ci_world (resolve_path "/srv/.ci/repo") false
    (ignored_parts default_constraints) = [].
Proof.
  assert (Hroot : should_exclude (resolve_path "/srv/.ci/repo")
                    (ignored_parts default_constraints) = true)
    by (vm_compute; reflexivity).
  assert (Hdiff : diff_is_relative ci_world (resolve_path "/srv/.ci/repo")
                  = true)
    by (vm_compute; reflexivity).
  exact (excluded_root_lists_nothing ci_world (resolve_path "/srv/.ci/repo")
           (ignored_parts default_constraints) false Hroot Hdiff).
Defined.

(** ** Root as a string *)

Section RootString.

Lemma append_assoc (a b d : string) : (a +:+ b) +:+ d = a +:+ (b +:+ d).
Proof.
  induction a as [|ch a IH]; [reflexivity|].
  change (String ch ((a +:+ b) +:+ d) = String ch (a +:+ (b +:+ d))).
  rewrite IH. reflexivity.
Qed.

Lemma append_nil_r (a : string) : a +:+ EmptyString = a.
Proof.
  induction a as [|ch a IH]; [reflexivity|].
  change (String ch (a +:+ EmptyString) = String ch a).
  rewrite IH. reflexivity.
Qed.

(** Splitting reads a piece without separator in one go. *)
Lemma split_aux_piece sep a : forall cur rest,
  contains sep a = false ->
  Text.split_aux sep cur (a +:+ rest) = Text.split_aux sep (cur +:+ a) rest.
Proof.
  induction a as [|ch a IH]; intros cur rest Ha.
  - rewrite append_nil_r. reflexivity.
  - simpl in Ha. apply orb_false_elim in Ha as [Hch Ha].
    change (String ch a +:+ rest) with (String ch (a +:+ rest)).
    cbn [Text.split_aux].
    rewrite Ascii.eqb_sym, Hch, IH by assumption.
    rewrite append_assoc. reflexivity.
Qed.

(** [split] undoes [join] on pieces without separator. *)
Lemma split_concat segs :
  segs <> [] -> Forall (fun s => contains "/" s = false) segs ->
  Text.split "/" (String.concat "/" segs) = segs.
Proof.
  unfold Text.split. induction segs as [|x segs IH]; [contradiction|].
  intros _ Hall. inversion Hall as [|? ? Hx Hrest]; subst.
  destruct segs as [|y segs].
  - simpl. rewrite <- (append_nil_r x) at 1.
    rewrite split_aux_piece by assumption. reflexivity.
  - change (String.concat "/" (x :: y :: segs))
      with (x +:+ "/" +:+ String.concat "/" (y :: segs)).
    rewrite split_aux_piece by assumption.
    change (EmptyString +:+ x) with x.
    change ("/" +:+ String.concat "/" (y :: segs))
      with (String "/" (String.concat "/" (y :: segs))).
    cbn [Text.split_aux]. rewrite Ascii.eqb_refl.
    f_equal. apply IH; [discriminate | assumption].
Qed.

Lemma segments_concat segs :
  Forall normal_segment segs ->
  Pth.segments (String.concat "/" segs) = segs.
Proof.
  intros Hall. unfold Pth.segments. destruct segs as [|x segs]; [reflexivity|].
  rewrite split_concat; [|discriminate|].
  - apply filter_all. intros s Hs. rewrite List.Forall_forall in Hall.
    destruct (Hall s Hs) as (_ & H1 & H2 & _).
    apply String.eqb_neq in H1, H2. rewrite H1, H2. reflexivity.
  - eapply List.Forall_impl; [|exact Hall]. intros s Hs. apply Hs.
Qed.

(** A joined list of normal segments does not begin with ["/"]. *)
Lemma concat_no_leading_slash segs :
  Forall normal_segment segs ->
  Text.startswith (String.concat "/" segs) "/" = false.
Proof.
  intros Hall. destruct segs as [|x segs]; [reflexivity|].
  inversion Hall as [|? ? (Hx & Hne & _) _]; subst.
  destruct x as [|ch x]; [contradiction|].
  cbn [contains] in Hx. apply orb_false_elim in Hx as [Hch _].
  assert (Hhead : forall rest, Text.startswith (String ch rest) "/" = false).
  { intros rest. unfold Text.startswith. cbn [String.prefix].
    destruct (ascii_dec "/" ch) as [<-|_]; [|reflexivity].
    rewrite Ascii.eqb_refl in Hch. discriminate Hch. }
  destruct segs as [|y segs]; [apply Hhead|].
  change (String.concat "/" (String ch x :: y :: segs))
    with (String ch (x +:+ "/" +:+ String.concat "/" (y :: segs))).
  apply Hhead.
Qed.

Lemma leading_slashes R :
  Text.startswith R "/" = false ->
  String.prefix "//" (String "/" R) = false
  /\ String.prefix "///" (String "/" R) = false.
Proof.
  unfold Text.startswith. destruct R as [|ch R']; [split; reflexivity|].
  cbn [String.prefix].
  destruct (ascii_dec "/" "/") as [_|Hne]; [|contradiction].
  destruct (ascii_dec "/" ch);
    [intros H; destruct R'; discriminate H | split; reflexivity].
Qed.

Lemma to_str_absolute segs :
  Pth.to_str ("/" :: segs) = String "/" (String.concat "/" segs).
Proof. reflexivity. Qed.

Lemma anchor_of_to_str segs :
  Forall normal_segment segs ->
  Pth.anchor_of (Pth.to_str ("/" :: segs)) = ["/"].
Proof.
  intros Hall. rewrite to_str_absolute.
  pose proof (concat_no_leading_slash segs Hall) as Hlead.
  destruct (leading_slashes _ Hlead) as [H2 H3].
  unfold Pth.anchor_of, Text.startswith. rewrite H3, H2.
  cbn [String.prefix].
  destruct (ascii_dec "/" "/") as [_|Hne]; [|contradiction].
  destruct (String.concat "/" segs); reflexivity.
Qed.

Lemma segments_to_str segs :
  Forall normal_segment segs ->
  Pth.segments (Pth.to_str ("/" :: segs)) = segs.
Proof.
  intros Hall. rewrite to_str_absolute.
  pose proof (segments_concat segs Hall) as Hsegs.
  unfold Pth.segments, Text.split in *.
  cbn [Text.split_aux]. rewrite Ascii.eqb_refl. cbn [List.filter].
  rewrite String.eqb_refl. cbn [negb andb]. exact Hsegs.
Qed.

Lemma parse_to_str segs :
  Forall normal_segment segs ->
  Pth.parse (Pth.to_str ("/" :: segs)) = "/" :: segs.
Proof.
  intros Hall. unfold Pth.parse.
  rewrite anchor_of_to_str, segments_to_str by assumption. reflexivity.
Qed.

Lemma normalise_normal segs : forall acc,
  Forall normal_segment acc ->
  (forall s, In s segs -> s <> ".." -> normal_segment s) ->
  Forall normal_segment (normalise acc segs).
Proof.
  induction segs as [|s segs IH]; intros acc Hacc Hsegs; simpl.
  - apply Forall_rev, Hacc.
  - destruct (String.eqb_spec s "..") as [->|Hne].
    + apply IH; [|auto using in_cons].
      destruct acc; [constructor | inversion Hacc; assumption].
    + apply IH; [|auto using in_cons].
      constructor; [apply Hsegs; [left; reflexivity | exact Hne] | exact Hacc].
Qed.

Lemma normalise_identity segs : forall acc,
  Forall normal_segment segs -> normalise acc segs = rev acc ++ segs.
Proof.
  induction segs as [|s segs IH]; intros acc Hall; simpl.
  - rewrite app_nil_r. reflexivity.
  - inversion Hall as [|? ? (_ & _ & _ & Hs) Hrest]; subst.
    destruct (String.eqb_spec s "..") as [->|_]; [contradiction|].
    rewrite IH by assumption. simpl. rewrite <- app_assoc. reflexivity.
Qed.

(** X8. The resolved root is absolute and normal: no part after the
    anchor is empty, ["."] or [".."], or holds a ["/"].  So its string,
    which is what [git -C] receives, names it exactly: parsing the
    string gives root back, and resolving it again changes nothing. *)
Theorem resolved_root_round_trip path :
  let root := resolve_path path in
  Pth.has_anchor root = true
  /\ Forall normal_segment (tail root)
  /\ Pth.parse (Pth.to_str root) = root
  /\ resolve_path (Pth.to_str root) = root
  /\ nth_error (diff_cmd root) 2 = Some (Pth.to_str root).
Proof.
  intros root.
  assert (Hnormal : Forall normal_segment (normalise [] (Pth.segments path))).
  { apply normalise_normal; [constructor|].
    intros s Hs Hne. destruct (segments_In _ _ Hs) as (H1 & H2 & H3).
    repeat split; assumption. }
  split; [reflexivity|]. split; [exact Hnormal|].
  split; [apply parse_to_str, Hnormal|]. split; [|reflexivity].
  unfold root. unfold resolve_path at 1. fold (resolve_path path).
  unfold resolve_path at 1.
  rewrite segments_to_str, normalise_identity by assumption. reflexivity.
Qed.

End RootString.

(** ** The instructor bypass *)

Section Bypass.

Local Open Scope char_scope.

Lemma lower_char_t ch : Text.lower_char ch = "t" -> ch = "t" \/ ch = "T".
Proof.
  destruct ch as [[] [] [] [] [] [] [] []]; vm_compute; intros H;
    try discriminate H; auto.
Qed.

Lemma lower_char_r ch : Text.lower_char ch = "r" -> ch = "r" \/ ch = "R".
Proof.
  destruct ch as [[] [] [] [] [] [] [] []]; vm_compute; intros H;
    try discriminate H; auto.
Qed.

Lemma lower_char_u ch : Text.lower_char ch = "u" -> ch = "u" \/ ch = "U".
Proof.
  destruct ch as [[] [] [] [] [] [] [] []]; vm_compute; intros H;
    try discriminate H; auto.
Qed.

Lemma lower_char_e ch : Text.lower_char ch = "e" -> ch = "e" \/ ch = "E".
Proof.
  destruct ch as [[] [] [] [] [] [] [] []]; vm_compute; intros H;
    try discriminate H; auto.
Qed.

(** X10. The instructor bypass is on exactly when [IS_INSTRUCTOR] is set
    to one of the sixteen spellings of [true] in upper and lower case;
    it is off when the variable is unset, and for any other value, with
    surrounding white space too. *)
Theorem instructor_bypass_values w :
  (is_instructor_of w = true <->
   exists c1 c2 c3 c4,
     environ_IS_INSTRUCTOR w
     = Some (String c1 (String c2 (String c3 (String c4 EmptyString))))
     /\ (c1 = "t" \/ c1 = "T") /\ (c2 = "r" \/ c2 = "R")
     /\ (c3 = "u" \/ c3 = "U") /\ (c4 = "e" \/ c4 = "E"))
  /\ (environ_IS_INSTRUCTOR w = None -> is_instructor_of w = false).
Proof.
  unfold is_instructor_of. split; [split|].
  - destruct (environ_IS_INSTRUCTOR w) as [v|]; simpl default;
      [|vm_compute; discriminate].
    intros H. apply String.eqb_eq in H.
    destruct v as [|c1 [|c2 [|c3 [|c4 [|c5 v]]]]]; try discriminate H.
    cbn [Text.lower] in H. injection H as H1 H2 H3 H4.
    exists c1, c2, c3, c4. split; [reflexivity|].
    repeat split;
      [apply lower_char_t | apply lower_char_r | apply lower_char_u
      | apply lower_char_e]; assumption.
  - intros (c1 & c2 & c3 & c4 & -> & H1 & H2 & H3 & H4).
    destruct H1 as [->| ->], H2 as [->| ->], H3 as [->| ->], H4 as [->| ->];
      reflexivity.
  - intros ->. reflexivity.
Qed.

End Bypass.

(** [IS_INSTRUCTOR=TRUE] turns the bypass on. *)
Lemma instructor_bypass_values_witness : is_instructor_of clean_world = true.
Proof.
  apply (proj1 (instructor_bypass_values clean_world)).
  exists "T"%char, "R"%char, "U"%char, "E"%char. repeat split; auto.
Defined.

(** ** No violation twice *)

Section Once.

Variables (c : Constraints) (w : World) (root : Path).
Hypothesis wf_disk : wf_node (disk w) = true.
Hypothesis root_absolute : Pth.has_anchor root = true.

Lemma NoDup_concat_map {A} (f : A -> list violation) l :
  List.NoDup l ->
  (forall x, In x l -> List.NoDup (f x)) ->
  (forall x y v, In x l -> In y l -> In v (f x) -> In v (f y) -> x = y) ->
  List.NoDup (concat (map f l)).
Proof.
  induction l as [|x l IH]; intros Hl Hf Hdisj; simpl; [constructor|].
  inversion Hl as [|? ? Hx Hl']; subst. apply List.NoDup_app.
  - apply Hf. left; reflexivity.
  - apply IH; [assumption | auto using in_cons |].
    intros y z v Hy Hz. apply Hdisj; right; assumption.
  - intros v Hv Hin. apply In_concat_map in Hin as [y [Hy Hvy]].
    apply Hx. rewrite (Hdisj x y v); auto using in_eq, in_cons.
Qed.

Lemma NoDup_one_or_none (b : bool) (v : violation) :
  List.NoDup (if b then [v] else []).
Proof. destruct b; repeat constructor. intros []. Qed.

Lemma candidate_emitted_NoDup local is_instructor p :
  List.NoDup (candidate_emitted c w root local is_instructor p).
Proof.
  unfold candidate_emitted. destruct (exists_ (disk w) p); [|constructor].
  apply List.NoDup_app.
  - unfold asset_emitted. destruct (mem _ _); [|constructor].
    destruct (stat_size (disk w) p); [|constructor].
    destruct (Pth.relative_to p root); [|constructor].
    apply NoDup_one_or_none.
  - unfold scope_emitted. destruct (negb local && negb is_instructor);
      [|constructor].
    destruct (Pth.relative_to p root); [|constructor].
    apply NoDup_one_or_none.
  - intros v Hv Hs. apply asset_emitted_In in Hv as (? & ? & -> & _).
    apply scope_emitted_In in Hs as (? & ? & _). discriminate.
Qed.

Lemma candidate_emitted_same local is_instructor p q v :
  In v (candidate_emitted c w root local is_instructor p) ->
  In v (candidate_emitted c w root local is_instructor q) -> p = q.
Proof.
  intros [_ [Hp|Hp]]%candidate_emitted_In [_ [Hq|Hq]]%candidate_emitted_In.
  - apply asset_emitted_In in Hp as (rel & ? & -> & Hrel & _).
    apply asset_emitted_In in Hq as (? & ? & [= <-] & Hrel' & _).
    eapply relative_to_inj; eauto.
  - apply asset_emitted_In in Hp as (? & ? & -> & _).
    apply scope_emitted_In in Hq as (? & ? & _). discriminate.
  - apply scope_emitted_In in Hp as (? & -> & _).
    apply asset_emitted_In in Hq as (? & ? & ? & _). discriminate.
  - apply scope_emitted_In in Hp as (rel & -> & Hrel & _).
    apply scope_emitted_In in Hq as (? & [= <-] & Hrel' & _).
    eapply relative_to_inj; eauto.
Qed.

Lemma source_file_emitted_NoDup f :
  List.NoDup (source_file_emitted c w root f).
Proof.
  unfold source_file_emitted. destruct (open_lines (disk w) f); [|constructor].
  destruct (Pth.relative_to f root); [|constructor]. apply NoDup_one_or_none.
Qed.

Lemma source_file_emitted_same f f' v :
  In v (source_file_emitted c w root f) ->
  In v (source_file_emitted c w root f') -> f = f'.
Proof.
  intros Hf Hf'.
  apply source_file_emitted_In in Hf as (rel & ? & -> & Hrel & _).
  symmetry. eapply source_file_emitted_same_file; eauto.
Qed.

Lemma question_dir_emitted_NoDup d :
  List.NoDup (question_dir_emitted c w root d).
Proof.
  unfold question_dir_emitted.
  destruct (exists_ (disk w) (Pth.joinpath d "src")); [|constructor].
  apply List.NoDup_app.
  - apply NoDup_one_or_none.
  - apply NoDup_concat_map.
    + apply glob_ext_NoDup, wf_disk.
    + intros f _. apply source_file_emitted_NoDup.
    + intros f f' v _ _. apply source_file_emitted_same.
  - intros v Hv Hin. destruct (_ >? _); [|destruct Hv].
    destruct Hv as [<-|[]]. apply In_concat_map in Hin as [f [_ Hin]].
    apply source_file_emitted_In in Hin as (? & ? & ? & _). discriminate.
Qed.

Lemma question_dir_emitted_same q_dirs d d' v :
  question_dirs c w root = Ok q_dirs -> In d q_dirs -> In d' q_dirs ->
  In v (question_dir_emitted c w root d) ->
  In v (question_dir_emitted c w root d') -> d = d'.
Proof.
  intros Hq Hd Hd' Hv Hv'.
  apply question_dir_emitted_In in Hv as [_ [Hv|[f [Hf Hv]]]];
    apply question_dir_emitted_In in Hv' as [_ [Hv'|[f' [Hf' Hv']]]].
  - rewrite (question_dir_name c w root root_absolute _ _ Hq Hd),
      (question_dir_name c w root root_absolute _ _ Hq Hd').
    congruence.
  - subst v. apply source_file_emitted_In in Hv' as (? & ? & ? & _).
    discriminate.
  - subst v. apply source_file_emitted_In in Hv as (? & ? & ? & _).
    discriminate.
  - pose proof (source_file_emitted_same _ _ _ Hv Hv') as <-.
    apply glob_ext_In in Hf as [n [Hn _]].
    apply glob_ext_In in Hf' as [n' [Hn' _]].
    rewrite joinpath_src in Hn, Hn'. rewrite Hn in Hn'.
    apply app_inj_tail in Hn' as [Hn' _].
    apply app_inj_tail in Hn' as [Hn' _]. exact Hn'.
Qed.

(** X11. No violation twice.  On a well-formed tree and with an absolute
    root, a run over a candidate list without repetition collects a list
    of violations without repetition; so does every Local run, whose
    candidate list has none. *)
Theorem no_violation_twice local is_instructor :
  (forall files st,
      List.NoDup files ->
      run_rules c w root local is_instructor files = Ok st ->
      List.NoDup (violations st))
  /\ (forall ignored st,
        run_rules c w root true is_instructor
          (get_files_to_check w root true ignored) = Ok st ->
        List.NoDup (violations st)).
Proof.
  assert (Hgen : forall l i files st,
            List.NoDup files -> run_rules c w root l i files = Ok st ->
            List.NoDup (violations st)).
  { intros l i files st Hfiles Hrun.
    destruct (run_rules_emits _ _ _ _ _ _ _ Hrun) as [q_dirs [Hq ->]].
    apply List.NoDup_app.
    - apply NoDup_concat_map; [assumption | |].
      + intros p _. apply candidate_emitted_NoDup.
      + intros p q v _ _. apply candidate_emitted_same.
    - apply NoDup_concat_map.
      + eapply question_dirs_NoDup; eauto.
      + intros d _. apply question_dir_emitted_NoDup.
      + intros d d' v. apply question_dir_emitted_same with (q_dirs := q_dirs).
        exact Hq.
    - intros v Hv Hin.
      apply In_concat_map in Hv as [p [_ Hv]].
      apply In_concat_map in Hin as [d [_ Hin]].
      apply candidate_emitted_In in Hv as [_ [Hv|Hv]];
        [apply asset_emitted_In in Hv as (? & ? & -> & _)
        |apply scope_emitted_In in Hv as (? & -> & _)];
        (apply question_dir_emitted_In in Hin as [_ [Hin|[f [_ Hin]]]];
         [discriminate|];
         apply source_file_emitted_In in Hin as (? & ? & ? & _);
         discriminate). }
  split; [apply Hgen|].
  intros ignored st. apply Hgen. simpl.
  apply List.NoDup_filter, rglob_NoDup, wf_disk.
Qed.

End Once.

(** The Local run of the sample submission reports each of its three
    violations once. *)
Lemma no_violation_twice_witness : List.NoDup (violations sample_local_state).
Proof.
  assert (Hwf : wf_node (disk sample_world) = true)
    by (vm_compute; reflexivity).
  assert (Habs : Pth.has_anchor sample_root = true)
    by (vm_compute; reflexivity).
  exact (proj2 (no_violation_twice default_constraints sample_world
                  sample_root Hwf Habs true false)
           (ignored_parts default_constraints) sample_local_state
           sample_local_run).
Defined.

(** ** Messages *)

Section Messages.













End Messages.

Section RunMessages.

Variables (w : World) (root : Path).
Hypothesis wf_disk : wf_node (disk w) = true.
Hypothesis root_absolute : Pth.has_anchor root = true.









End RunMessages.


